(** * The JavaScript DOM renderer of vugu ([renderer-js.go])

    A shallow embedding of [JSRenderer.Render] and of the visitors it
    drives ([visitFirst], [visitMount], [visitSyncNode],
    [visitSyncElementEtc], the stubs [visitHead], [visitBody] and
    [handleDOMEvent]), followed by the properties of the instruction
    stream they write.

    Go methods that return [error] become functions from a [World] to a
    pair of an optional error ([None] is Go's [nil]) and the world they
    leave behind.  The world is kept on the error path too: a Go method
    that fails has still performed every write that came before. *)

From Stdlib Require Import ZArith List Bool Lia Ascii String DecimalString.
From Stdlib Require DecimalZ DecimalPos.
From Stdlib.Strings Require Import Byte.
Import ListNotations.

Set Implicit Arguments.

Local Open Scope string_scope.
Local Open Scope list_scope.
Local Open Scope nat_scope.

(** ** The virtual tree *)

(** Modelled from the spec: the declaration of [VGNodeType] is not part of
    [renderer-js.go]; the data model gives the variant as Element, Text,
    Comment, Document. *)
Inductive VGNodeType : Type :=
| ElementNode
| TextNode
| CommentNode
| DocumentNode.

Definition VGNodeType_eqb (a b : VGNodeType) : bool :=
  match a, b with
  | ElementNode, ElementNode => true
  | TextNode, TextNode => true
  | CommentNode, CommentNode => true
  | DocumentNode, DocumentNode => true
  | _, _ => false
  end.

(** One entry of [n.Attr]; the visitor reads [a.Key] and [a.Val]. *)
Record VGAttribute : Type := mkVGAttribute {
  Key : string;
  Val : string
}.

(** One entry of [n.DOMEventHandlerSpecList]; the visitor reads
    [hs.EventType], [hs.Capture] and [hs.Passive]. *)
Record DOMEventHandlerSpec : Type := mkDOMEventHandlerSpec {
  EventType : string;
  Capture : bool;
  Passive : bool
}.

(** A node, with the fields the renderer reads.  [FirstChild] and
    [NextSibling] are Go pointers: [None] is [nil].  [InnerHTML] is a
    [*string].  An inductive value is a finite tree, which is what the
    producer hands over: the pointer structure has no cycle and no
    sharing. *)
#[local] Unset Elimination Schemes.
Inductive VGNode : Type := mkVGNode {
  Type_ : VGNodeType;
  Data : string;
  Attr : list VGAttribute;
  InnerHTML : option string;
  DOMEventHandlerSpecList : list DOMEventHandlerSpec;
  FirstChild : option VGNode;
  NextSibling : option VGNode
}.
#[local] Set Elimination Schemes.

(** [BuildOut] as the renderer uses it: [bo.Doc] is a [*VGNode]. *)
Record BuildOut : Type := mkBuildOut {
  Doc : option VGNode
}.

(** The chain [c, c.NextSibling, c.NextSibling.NextSibling, ...] *)
Fixpoint siblingsFrom (c : VGNode) : list VGNode :=
  c :: match NextSibling c with
       | Some s => siblingsFrom s
       | None => []
       end.

(** The nodes visited by
    [for nchild := n.FirstChild; nchild != nil; nchild = nchild.NextSibling]. *)
Definition children (n : VGNode) : list VGNode :=
  match FirstChild n with
  | Some c => siblingsFrom c
  | None => []
  end.

(** ** Instructions *)

(** A position id is a Go [[]byte]. *)
Definition PositionID : Type := list byte.

(** One constructor per [write...] method of the instruction list that the
    renderer calls, with the arguments of the call. *)
Inductive instruction : Type :=
| ClearElement
| SelectMountPoint (selector tag : string)
| SetElement (tag : string)
| SetText (content : string)
| SetComment (content : string)
| SetAttr (key val : string)
| RemoveOtherAttrs
| SetEventListener (positionID : PositionID) (eventType : string)
                   (capture passive : bool)
| RemoveOtherEventListeners (positionID : PositionID)
| SetInnerHTML (html : string)
| MoveToFirstChild
| MoveToNextSibling
| MoveToParent.

(** The size of an instruction once encoded.  The wire format belongs to
    the instruction list, which is outside [renderer-js.go]; every result
    below holds for any encoding. *)
Class InstructionCodec : Type := {
  encodedLen : instruction -> nat
}.

(** Modelled from the spec: [instructionList] and its [write...] and
    [flush] methods are declared outside [renderer-js.go].  The transport
    owns a buffer of fixed capacity; [pending] is what has been written
    since the last flush, and [flushed] the batches handed to the host so
    far, oldest first. *)
Record instructionList : Type := mkInstructionList {
  capacity : nat;
  pending : list instruction;
  flushed : list (list instruction)
}.

(** ** Errors, log lines and the world *)

(** An argument of a [%v], [%q] or [%#v] verb. *)
Inductive fmtArg : Type :=
| ArgNodeType (t : VGNodeType)
| ArgString (s : string)
| ArgNode (n : VGNode)
| ArgBuildOut (bo : BuildOut).

(** [fmt.Errorf(format, args...)], kept unformatted, and the overflow
    error of the transport. *)
Inductive error : Type :=
| Errorf (format : string) (args : list fmtArg)
| BufferOverflow.

(** [log.Printf(format, args...)], kept unformatted. *)
Inductive logLine : Type :=
| Printf (format : string) (args : list fmtArg).

(** What a render pass can read and change: [js.Global().Truthy()], the
    renderer's mount point selector and instruction list, and the log. *)
Record World : Type := mkWorld {
  jsGlobalTruthy : bool;
  MountPointSelector : string;
  instructionList_ : instructionList;
  logOutput : list logLine
}.

(** Every instruction written so far, in the order of the writes. *)
Definition written (w : World) : list instruction :=
  List.concat (flushed (instructionList_ w)) ++ pending (instructionList_ w).

(** ** Methods returning [error] *)

Definition M : Type := World -> option error * World.

Definition ret : M := fun w => (None, w).

Definition fail (e : error) : M := fun w => (Some e, w).

(** [err := m; if err != nil { return err }; k] *)
Definition andThen (m k : M) : M :=
  fun w =>
    match m w with
    | (None, w') => k w'
    | (Some e, w') => (Some e, w')
    end.

Declare Scope go_scope.
Delimit Scope go_scope with go.
Bind Scope go_scope with M.
Notation "m ;; k" := (andThen m k)
  (at level 61, right associativity) : go_scope.
Local Open Scope go_scope.

(** [for _, x := range xs { err := body(x); if err != nil { return err } }] *)
Fixpoint forRange (A : Type) (xs : list A) (body : A -> M) : M :=
  match xs with
  | [] => ret
  | x :: xs' => body x ;; forRange xs' body
  end.

Definition logPrintf (format : string) (args : list fmtArg) : M :=
  fun w =>
    (None, mkWorld (jsGlobalTruthy w) (MountPointSelector w)
                   (instructionList_ w)
                   (logOutput w ++ [Printf format args])).

(** ** The transport *)

Definition bufferUsed `{InstructionCodec} (il : instructionList) : nat :=
  list_sum (map encodedLen (pending il)).

(** Modelled from the spec: [flush] hands the filled prefix of the buffer
    to the host in one call and resets the write cursor.  The flush
    callback installed by [NewJSRenderer] calls [vuguRender] and returns
    [nil]. *)
Definition flushList (il : instructionList) : instructionList :=
  mkInstructionList (capacity il) [] (flushed il ++ [pending il]).

(** Modelled from the spec: a write fails with [BufferOverflow] only if the
    instruction cannot fit even in an empty buffer; otherwise, if the
    current buffer lacks room, the transport flushes first, then writes.
    The spec does not say what a failed write leaves in the buffer: the
    list is returned here as it was.  Of the state after a failed write
    the statements below use [written] only, which a flush before the
    failure would not change. *)
Definition writeList `{InstructionCodec} (i : instruction)
    (il : instructionList) : option error * instructionList :=
  if capacity il <? encodedLen i then (Some BufferOverflow, il)
  else if capacity il - bufferUsed il <? encodedLen i
       then (None, mkInstructionList (capacity il) [i]
                                     (flushed il ++ [pending il]))
       else (None, mkInstructionList (capacity il) (pending il ++ [i])
                                     (flushed il)).

Definition withList (w : World) (il : instructionList) : World :=
  mkWorld (jsGlobalTruthy w) (MountPointSelector w) il (logOutput w).

Definition write `{InstructionCodec} (i : instruction) : M :=
  fun w =>
    let (e, il) := writeList i (instructionList_ w) in (e, withList w il).

Definition flush : M :=
  fun w => (None, withList w (flushList (instructionList_ w))).

Section Writers.
Context `{InstructionCodec}.

Definition writeClearEl : M := write ClearElement.
Definition writeSelectMountPoint (selector tag : string) : M :=
  write (SelectMountPoint selector tag).
Definition writeSetElement (tag : string) : M := write (SetElement tag).
Definition writeSetText (content : string) : M := write (SetText content).
Definition writeSetComment (content : string) : M :=
  write (SetComment content).
Definition writeSetAttrStr (key val : string) : M :=
  write (SetAttr key val).
Definition writeRemoveOtherAttrs : M := write RemoveOtherAttrs.
Definition writeSetEventListener (positionID : PositionID)
    (eventType : string) (capture passive : bool) : M :=
  write (SetEventListener positionID eventType capture passive).
Definition writeRemoveOtherEventListeners (positionID : PositionID) : M :=
  write (RemoveOtherEventListeners positionID).
Definition writeSetInnerHTML (html : string) : M :=
  write (SetInnerHTML html).
Definition writeMoveToFirstChild : M := write MoveToFirstChild.
Definition writeMoveToNextSibling : M := write MoveToNextSibling.
Definition writeMoveToParent : M := write MoveToParent.
End Writers.

(** ** Strings and integers of the Go runtime *)

(** [strings.ToLower] on the ASCII letters.  The renderer only compares the
    result with ["html"], ["head"] and ["body"]; a string holding a byte
    outside ASCII lowers to one that still holds a byte outside ASCII or a
    letter [i] or [k], so it equals none of the three in Go either. *)
Definition lowerByte (c : ascii) : ascii :=
  let n := nat_of_ascii c in
  if (65 <=? n)%nat && (n <=? 90)%nat then ascii_of_nat (n + 32) else c.

Fixpoint ToLower (s : string) : string :=
  match s with
  | EmptyString => EmptyString
  | String c s' => String (lowerByte c) (ToLower s')
  end.

(** Go's [int] is 64 bits wide on js/wasm; [childIndex++] wraps. *)
Definition wrapInt (z : Z) : Z :=
  ((z + 2 ^ 63) mod 2 ^ 64 - 2 ^ 63)%Z.

(** [fmt.Sprintf("%d", z)] *)
Definition sprintfD (z : Z) : string :=
  NilZero.string_of_int (Z.to_int z).

(** [append(positionID, []byte(fmt.Sprintf("_%d", childIndex))...)].
    The result may share its backing array with [positionID], but an
    append only writes past the length of [positionID], and every earlier
    child position has been written out before the next one is built: the
    bytes any call reads are those of the value below. *)
Definition childPositionID (positionID : PositionID) (childIndex : Z)
    : PositionID :=
  positionID ++ list_byte_of_string ("_" ++ sprintfD childIndex)%string.

(** ** The visitors *)

Section Visitors.
Context `{InstructionCodec}.

Definition visitHead (bo : BuildOut) (n : VGNode)
    (positionID : PositionID) : M :=
  logPrintf "TODO: visitHead" [].

Definition visitBody (bo : BuildOut) (n : VGNode)
    (positionID : PositionID) : M :=
  logPrintf "TODO: visitBody" [].

Section SyncElement.
(** The call [r.visitSyncNode] inside the child loop. *)
Variable visitChild : VGNode -> PositionID -> M.

(** The body of the child loop, from [nchild] on, with the loop
    counter [childIndex]. *)
Fixpoint syncSiblings (positionID : PositionID) (nchild : VGNode)
    (childIndex : Z) {struct nchild} : M :=
  visitChild nchild (childPositionID positionID childIndex) ;;
  writeMoveToNextSibling ;;
  match NextSibling nchild with
  | Some next => syncSiblings positionID next (wrapInt (childIndex + 1))
  | None => ret
  end.

Definition syncElementEtc (n : VGNode) (positionID : PositionID) : M :=
  forRange (Attr n) (fun a => writeSetAttrStr (Key a) (Val a)) ;;
  writeRemoveOtherAttrs ;;
  (if (0 <? List.length (DOMEventHandlerSpecList n))%nat
   then forRange (DOMEventHandlerSpecList n)
          (fun hs => writeSetEventListener positionID (EventType hs)
                       (Capture hs) (Passive hs))
   else ret) ;;
  writeRemoveOtherEventListeners positionID ;;
  match InnerHTML n with
  | Some html => writeSetInnerHTML html
  | None =>
      match FirstChild n with
      | Some first =>
          writeMoveToFirstChild ;;
          syncSiblings positionID first 1 ;;
          writeMoveToParent
      | None => ret
      end
  end.
End SyncElement.

Fixpoint visitSyncNode (bo : BuildOut) (n : VGNode)
    (positionID : PositionID) {struct n} : M :=
  logPrintf "visitSyncNode" [] ;;
  match Type_ n with
  | ElementNode =>
      writeSetElement (Data n) ;;
      syncElementEtc (visitSyncNode bo) n positionID
  | TextNode => writeSetText (Data n)
  | CommentNode => writeSetComment (Data n)
  | _ => fail (Errorf "unknown node type %v" [ArgNodeType (Type_ n)])
  end.

(** [visitSyncElementEtc] syncs the rest of the stuff that only applies
    to elements. *)
Definition visitSyncElementEtc (bo : BuildOut) (n : VGNode)
    (positionID : PositionID) : M :=
  syncElementEtc (visitSyncNode bo) n positionID.

Definition visitMount (bo : BuildOut) (n : VGNode)
    (positionID : PositionID) : M :=
  logPrintf "visitMount got here" [] ;;
  (fun w => writeSelectMountPoint (MountPointSelector w) (Data n) w) ;;
  visitSyncElementEtc bo n positionID.

(** The body of the loop over the children of an [html] root. *)
Definition visitHtmlChild (bo : BuildOut) (positionID : PositionID)
    (nchild : VGNode) : M :=
  if (ToLower (Data nchild) =? "head")%string then visitHead bo nchild positionID
  else if (ToLower (Data nchild) =? "body")%string
       then visitBody bo nchild positionID
       else fail (Errorf "unexpected tag inside html %q (VGNode=%#v)"
                         [ArgString (Data nchild); ArgNode nchild]).

Definition visitFirst (bo : BuildOut) (n : VGNode)
    (positionID : PositionID) : M :=
  logPrintf "TODO: We need to go through and optimize away unneeded calls to create elements, set attributes, set event handlers, etc. for cases where they are the same per hash" [] ;;
  logPrintf "JSRenderer.visitFirst" [] ;;
  if negb (VGNodeType_eqb (Type_ n) ElementNode)
  then fail (Errorf "root of component must be element" [])
  else
    writeClearEl ;;
    if (ToLower (Data n) =? "html")%string
    then forRange (children n) (visitHtmlChild bo positionID)
    else visitMount bo n positionID.

(** [Render] implements [Renderer]. *)
Definition Render (bo : option BuildOut) : M :=
  fun w =>
    if negb (jsGlobalTruthy w)
    then fail (Errorf "js environment not available" []) w
    else
      match bo with
      | None => fail (Errorf "BuildOut is nil" []) w
      | Some b =>
          match Doc b with
          | None => fail (Errorf "BuildOut.Doc is nil" []) w
          | Some el =>
              if negb (VGNodeType_eqb (Type_ el) ElementNode)
              then fail (Errorf "BuildOut.Doc.Type is (%v), not ElementNode"
                                [ArgNodeType (Type_ el)]) w
              else
                (logPrintf "BuildOut: %#v" [ArgBuildOut b] ;;
                 logPrintf "el: %#v" [ArgNode el] ;;
                 visitFirst b el (list_byte_of_string "0") ;;
                 flush) w
          end
      end.
End Visitors.

(** A Go call either returns or panics. *)
Inductive outcome (A : Type) : Type :=
| Returned (a : A)
| Panicked (e : error).
Arguments Returned {A} a.
Arguments Panicked {A} e.

Definition handleDOMEvent (w : World) : outcome unit * World :=
  (Panicked (Errorf "handleDOMEvent not yet implemented" []), w).

(** [NewJSRenderer]: a renderer with a 4096 byte instruction buffer and
    nothing written yet, in a host where the JS environment is there. *)
Definition NewJSRenderer (mountPointSelector : string) : World :=
  mkWorld true mountPointSelector (mkInstructionList 4096 [] []) [].

(** ** The instructions of a pass in which no call fails

    The same traversal as the visitors above, keeping only the argument of
    each write. *)

Definition attrInstrs (n : VGNode) : list instruction :=
  map (fun a => SetAttr (Key a) (Val a)) (Attr n).

Definition listenerInstrs (n : VGNode) (positionID : PositionID)
    : list instruction :=
  map (fun hs => SetEventListener positionID (EventType hs) (Capture hs)
                                  (Passive hs))
      (DOMEventHandlerSpecList n).

(** What [visitSyncElementEtc] writes before it looks at [n.InnerHTML]. *)
Definition elementPrefix (n : VGNode) (positionID : PositionID)
    : list instruction :=
  attrInstrs n ++ [RemoveOtherAttrs] ++
  listenerInstrs n positionID ++ [RemoveOtherEventListeners positionID].

Section SyncInstrs.
Variable childInstrs : VGNode -> PositionID -> list instruction.

Fixpoint siblingsInstrs (positionID : PositionID) (nchild : VGNode)
    (childIndex : Z) {struct nchild} : list instruction :=
  childInstrs nchild (childPositionID positionID childIndex) ++
  MoveToNextSibling ::
  match NextSibling nchild with
  | Some next => siblingsInstrs positionID next (wrapInt (childIndex + 1))
  | None => []
  end.

Definition elementRest (n : VGNode) (positionID : PositionID)
    : list instruction :=
  match InnerHTML n with
  | Some html => [SetInnerHTML html]
  | None =>
      match FirstChild n with
      | Some first =>
          MoveToFirstChild :: siblingsInstrs positionID first 1 ++
          [MoveToParent]
      | None => []
      end
  end.
End SyncInstrs.

Fixpoint nodeInstrs (n : VGNode) (positionID : PositionID) {struct n}
    : list instruction :=
  match Type_ n with
  | ElementNode =>
      SetElement (Data n) ::
      elementPrefix n positionID ++ elementRest nodeInstrs n positionID
  | TextNode => [SetText (Data n)]
  | CommentNode => [SetComment (Data n)]
  | _ => []
  end.

Definition elementEtcInstrs (n : VGNode) (positionID : PositionID)
    : list instruction :=
  elementPrefix n positionID ++ elementRest nodeInstrs n positionID.

(** The children of a node paired with their 1-based index. *)
Definition numbered (A : Type) (xs : list A) : list (nat * A) :=
  combine (seq 1 (List.length xs)) xs.

(** The child instructions of an element in the words of the
    specification: nothing for a childless node; otherwise
    [MoveToFirstChild], then for each child in sibling order with its
    1-based index [i] the instructions of the child at the parent's
    position id followed by ["_i"], then [MoveToNextSibling], and after
    the last child [MoveToParent]. *)
Definition specChildrenInstrs (n : VGNode) (positionID : PositionID)
    : list instruction :=
  match children n with
  | [] => []
  | _ :: _ =>
      MoveToFirstChild ::
      flat_map
        (fun ic =>
           nodeInstrs (snd ic)
             (positionID ++
              list_byte_of_string ("_" ++ sprintfD (Z.of_nat (fst ic)))%string)
           ++ [MoveToNextSibling])
        (numbered (children n)) ++
      [MoveToParent]
  end.

(** Whether a child of an [html] root goes to [visitHead] or [visitBody]. *)
Definition isHead (c : VGNode) : bool := (ToLower (Data c) =? "head")%string.
Definition isBody (c : VGNode) : bool := (ToLower (Data c) =? "body")%string.

(** The log line the structural child [c] leaves behind. *)
Definition structuralLog (c : VGNode) : logLine :=
  if isHead c then Printf "TODO: visitHead" [] else Printf "TODO: visitBody" [].

(** The two lines [visitFirst] logs on entry. *)
Definition visitFirstLog : list logLine :=
  [Printf "TODO: We need to go through and optimize away unneeded calls to create elements, set attributes, set event handlers, etc. for cases where they are the same per hash" [];
   Printf "JSRenderer.visitFirst" []].

(** An instruction fits the buffer of [w] when a write of it can succeed. *)
Definition fits `{InstructionCodec} (w : World) (i : instruction) : Prop :=
  encodedLen i <= capacity (instructionList_ w).

(** The part of the world that no visitor changes. *)
Definition config (w : World) : bool * string * nat :=
  (jsGlobalTruthy w, MountPointSelector w, capacity (instructionList_ w)).

(** A log line that is not the mark of [visitHead] or [visitBody]. *)
Definition notStructural (l : logLine) : Prop :=
  l <> Printf "TODO: visitHead" [] /\ l <> Printf "TODO: visitBody" [].

(** [tracesAt P w m t]: run from [w], [m] appends to the written
    instructions a prefix of [t], and all of [t] when it returns [nil]; it
    leaves the configuration alone and every line it logs satisfies [P]. *)
Definition tracesAt (P : logLine -> Prop) (w : World) (m : M)
    (t : list instruction) : Prop :=
  exists d l,
    written (snd (m w)) = written w ++ d /\
    config (snd (m w)) = config w /\
    logOutput (snd (m w)) = logOutput w ++ l /\
    Forall P l /\
    (exists t', t = d ++ t') /\
    (fst (m w) = None -> d = t).

(** The same from every world. *)
Definition tracesWith (P : logLine -> Prop) (m : M) (t : list instruction)
    : Prop :=
  forall w, tracesAt P w m t.

(** The judgement for the code below the mount point, which never reaches
    [visitHead] or [visitBody]. *)
Definition traces : M -> list instruction -> Prop :=
  tracesWith notStructural.

(** Whether every node the traversal reaches below (and including) [n] is
    an element, a text or a comment: the nodes on which [visitSyncNode]
    does not return ["unknown node type"].  The children of a node with
    [InnerHTML] are not reached. *)
Section KnownTypes.
Variable childKnown : VGNode -> bool.

Fixpoint siblingsKnown (nchild : VGNode) {struct nchild} : bool :=
  childKnown nchild &&
  match NextSibling nchild with
  | Some next => siblingsKnown next
  | None => true
  end.

Definition elementKnown (n : VGNode) : bool :=
  match InnerHTML n with
  | Some _ => true
  | None =>
      match FirstChild n with
      | Some first => siblingsKnown first
      | None => true
      end
  end.
End KnownTypes.

Fixpoint typesKnown (n : VGNode) {struct n} : bool :=
  match Type_ n with
  | ElementNode => elementKnown typesKnown n
  | TextNode | CommentNode => true
  | DocumentNode => false
  end.

(** [succeedsAt w m t]: run from [w], [m] returns nil if every instruction
    of [t] fits the buffer. *)
Definition succeedsAt `{InstructionCodec} (w : World) (m : M)
    (t : list instruction) : Prop :=
  Forall (fits w) t -> fst (m w) = None.

Definition succeeds `{InstructionCodec} (m : M) (t : list instruction)
    : Prop :=
  forall w, succeedsAt w m t.

(** [visitSyncElementEtc] from the test of [n.InnerHTML] on. *)
Definition syncElementTail `{InstructionCodec}
    (v : VGNode -> PositionID -> M) (n : VGNode)
    (positionID : PositionID) : M :=
  match InnerHTML n with
  | Some html => writeSetInnerHTML html
  | None =>
      match FirstChild n with
      | Some first =>
          writeMoveToFirstChild ;;
          syncSiblings v positionID first 1 ;;
          writeMoveToParent
      | None => ret
      end
  end.

(** The instructions of [visitFirst] when no call fails: an [html] root
    only clears the element, any other root is mounted and synced. *)
Definition visitFirstInstrs (selector : string) (n : VGNode)
    (positionID : PositionID) : list instruction :=
  ClearElement ::
  if (ToLower (Data n) =? "html")%string then []
  else SelectMountPoint selector (Data n) :: elementEtcInstrs n positionID.

(** The error of [visitFirst] for a child of an [html] root that is
    neither a head nor a body. *)
Definition unexpectedTag (c : VGNode) : error :=
  Errorf "unexpected tag inside html %q (VGNode=%#v)"
         [ArgString (Data c); ArgNode c].

(** What the loop over the children of an [html] root returns when it has
    dispatched every child before [rest]: nil at the end of the list, the
    error of the first child of [rest] otherwise. *)
Definition htmlResult (rest : list VGNode) : option error :=
  match rest with
  | [] => None
  | c :: _ => Some (unexpectedTag c)
  end.

(** ** Sample values *)

(** An encoding with one opcode byte, a four byte length before each
    string or position id, and one byte per flag. *)
Definition sampleLen (i : instruction) : nat :=
  match i with
  | SelectMountPoint s t => 1 + (4 + String.length s) + (4 + String.length t)
  | SetElement t => 1 + (4 + String.length t)
  | SetText c => 1 + (4 + String.length c)
  | SetComment c => 1 + (4 + String.length c)
  | SetAttr k v => 1 + (4 + String.length k) + (4 + String.length v)
  | SetEventListener p e _ _ => 1 + (4 + List.length p) + (4 + String.length e) + 2
  | RemoveOtherEventListeners p => 1 + (4 + List.length p)
  | SetInnerHTML h => 1 + (4 + String.length h)
  | _ => 1
  end.

Definition sampleCodec : InstructionCodec := {| encodedLen := sampleLen |}.

Definition leaf (t : VGNodeType) (data : string)
    (next : option VGNode) : VGNode :=
  mkVGNode t data [] None [] None next.

(** [<div id="a" class="b" @click>hi<!--c--><p></p></div>] *)
Definition sampleDiv : VGNode :=
  mkVGNode ElementNode "div"
    [mkVGAttribute "id" "a"; mkVGAttribute "class" "b"] None
    [mkDOMEventHandlerSpec "click" false true]
    (Some (leaf TextNode "hi"
       (Some (leaf CommentNode "c"
          (Some (leaf ElementNode "p" None))))))
    None.

(** A [div] with raw inner content and a child besides. *)
Definition sampleRaw : VGNode :=
  mkVGNode ElementNode "div" [mkVGAttribute "id" "a"] (Some "<b>x</b>")
    [] (Some (leaf TextNode "ignored" None)) None.

(** A [div] holding a document node. *)
Definition sampleBadChild : VGNode :=
  mkVGNode ElementNode "div" [] None []
    (Some (leaf TextNode "t" (Some (leaf DocumentNode "" None)))) None.

(** [<HTML><head/><Body/></HTML>] *)
Definition sampleHtml : VGNode :=
  mkVGNode ElementNode "HTML" [] None []
    (Some (leaf ElementNode "head" (Some (leaf ElementNode "Body" None))))
    None.

(** [<html><head/>text<body/></html>]: a text node between the two. *)
Definition sampleHtmlBad : VGNode :=
  mkVGNode ElementNode "html" [] None []
    (Some (leaf ElementNode "head"
       (Some (leaf TextNode " "
          (Some (leaf ElementNode "body" None))))))
    None.

Definition sampleWorld : World := NewJSRenderer "#app".

Definition sampleBuildOut (root : VGNode) : BuildOut :=
  mkBuildOut (Some root).

(** The same renderer in a host without a JS environment. *)
Definition sampleWorldNoJS : World :=
  mkWorld false "#app" (mkInstructionList 4096 [] []) [].

(** A boolean test of [Forall (fits w)]. *)
Definition allFit `{InstructionCodec} (w : World)
    (instrs : list instruction) : bool :=
  forallb (fun i => encodedLen i <=? capacity (instructionList_ w)) instrs.

Definition p0 : PositionID := list_byte_of_string "0".

(** ** Predicates for the further properties *)

Definition isDigit (b : byte) : bool :=
  match b with
  | x30 | x31 | x32 | x33 | x34 | x35 | x36 | x37 | x38 | x39 => true
  | _ => false
  end.

Definition positionIDOf (i : instruction) : list PositionID :=
  match i with
  | RemoveOtherEventListeners p => [p]
  | _ => []
  end.

Definition positionIDs (t : list instruction) : list PositionID :=
  flat_map positionIDOf t.

Fixpoint fanoutBounded (n : VGNode) {struct n} : bool :=
  (Z.of_nat (List.length (children n)) <? 2 ^ 63)%Z &&
  match FirstChild n with
  | Some first => siblingsKnown fanoutBounded first
  | None => true
  end.

Definition segTail (r : list byte) : Prop :=
  r = [] \/ exists r', r = x5f :: r'.

(** The depth of the host cursor below the element it started at, after a
    list of instructions; [None] as soon as the list moves to the parent
    of, or to a sibling of, the element it started at. *)
Fixpoint cursorAfter (depth : nat) (t : list instruction) : option nat :=
  match t with
  | [] => Some depth
  | MoveToFirstChild :: t' => cursorAfter (S depth) t'
  | MoveToNextSibling :: t' =>
      match depth with
      | O => None
      | S _ => cursorAfter depth t'
      end
  | MoveToParent :: t' =>
      match depth with
      | O => None
      | S d => cursorAfter d t'
      end
  | _ :: t' => cursorAfter depth t'
  end.

Definition isMove (i : instruction) : bool :=
  match i with
  | MoveToFirstChild | MoveToNextSibling | MoveToParent => true
  | _ => false
  end.

(** The errors the traversal can return once [Render] has accepted its
    input. *)
Inductive traversalError : error -> Prop :=
| errUnknownType (t : VGNodeType) :
    t <> ElementNode -> t <> TextNode -> t <> CommentNode ->
    traversalError (Errorf "unknown node type %v" [ArgNodeType t])
| errUnexpectedTag (c : VGNode) :
    ToLower (Data c) <> "head"%string ->
    ToLower (Data c) <> "body"%string ->
    traversalError (unexpectedTag c)
| errOverflow : traversalError BufferOverflow.

(** The errors a render pass can return. *)
Inductive renderError : error -> Prop :=
| errNoJS : renderError (Errorf "js environment not available" [])
| errNilBuildOut : renderError (Errorf "BuildOut is nil" [])
| errNilDoc : renderError (Errorf "BuildOut.Doc is nil" [])
| errDocType (t : VGNodeType) :
    t <> ElementNode ->
    renderError (Errorf "BuildOut.Doc.Type is (%v), not ElementNode"
                        [ArgNodeType t])
| errTraversal (e : error) : traversalError e -> renderError e.

(** [failsWith E m]: every error [m] returns satisfies [E]. *)
Definition failsWith (E : error -> Prop) (m : M) : Prop :=
  forall w e, fst (m w) = Some e -> E e.

(** [EventWait] blocks until an event has occurred which causes a
    re-render: without a JS environment it returns false at once;
    otherwise it sleeps ten seconds, which changes nothing a render pass
    reads, and returns true. *)
Definition EventWait (w : World) : bool * World :=
  if negb (jsGlobalTruthy w) then (false, w) else (true, w).

(** [kept w w']: from [w] to [w'] the instructions [d] were written and
    no flush has followed the last of them: either nothing has been
    handed to the host and [d] follows what was waiting in the buffer, or
    the buffer holds a tail of [d] that is not empty. *)
Definition kept (w w' : World) : Prop :=
  exists d,
    written w' = written w ++ d /\
    (flushed (instructionList_ w') = flushed (instructionList_ w) /\
     pending (instructionList_ w') = pending (instructionList_ w) ++ d \/
     exists d1 d2,
       d = d1 ++ d2 /\ d2 <> [] /\ pending (instructionList_ w') = d2).

(** [keeps m]: unless a write of [m] fails, [m] ends in a world that has
    [kept] what it wrote. *)
Definition keeps (m : M) : Prop :=
  forall w, fst (m w) <> Some BufferOverflow -> kept w (snd (m w)).

(** [needs m t K]: when [m] returns nil, every instruction of [t] fits
    the buffer and [K] holds. *)
Definition needs `{InstructionCodec} (m : M) (t : list instruction)
    (K : Prop) : Prop :=
  forall w, fst (m w) = None -> Forall (fits w) t /\ K.

Definition isSetElement (i : instruction) : bool :=
  match i with SetElement _ => true | _ => false end.

Definition isRemoveOtherAttrs (i : instruction) : bool :=
  match i with RemoveOtherAttrs => true | _ => false end.

Definition isRemoveOtherEventListeners (i : instruction) : bool :=
  match i with RemoveOtherEventListeners _ => true | _ => false end.

(** How many instructions of [t] satisfy [p]. *)
Definition countInstr (p : instruction -> bool) (t : list instruction)
    : nat :=
  List.length (filter p t).

(** * Properties *)

(** Induction along both pointers of a node. *)
Lemma VGNode_pointer_ind (P : VGNode -> Prop) :
  (forall n,
      (forall c, FirstChild n = Some c -> P c) ->
      (forall s, NextSibling n = Some s -> P s) ->
      P n) ->
  forall n, P n.
Proof.
  intros step.
  fix rec 1.
  intros [ty data attrs inner specs first next].
  apply step; simpl.
  - destruct first as [c|]; intros x Hx; [|discriminate].
    injection Hx as <-. apply rec.
  - destruct next as [s|]; intros x Hx; [|discriminate].
    injection Hx as <-. apply rec.
Qed.

Lemma siblingsFrom_eq (c : VGNode) :
  siblingsFrom c =
  c :: match NextSibling c with
       | Some s => siblingsFrom s
       | None => []
       end.
Proof. destruct c; reflexivity. Qed.

Lemma nodeInstrs_eq (n : VGNode) (positionID : PositionID) :
  nodeInstrs n positionID =
  match Type_ n with
  | ElementNode => SetElement (Data n) :: elementEtcInstrs n positionID
  | TextNode => [SetText (Data n)]
  | CommentNode => [SetComment (Data n)]
  | _ => []
  end.
Proof. destruct n; reflexivity. Qed.

Lemma siblingsInstrs_eq (f : VGNode -> PositionID -> list instruction)
    (positionID : PositionID) (c : VGNode) (k : Z) :
  siblingsInstrs f positionID c k =
  f c (childPositionID positionID k) ++
  MoveToNextSibling ::
  match NextSibling c with
  | Some next => siblingsInstrs f positionID next (wrapInt (k + 1))
  | None => []
  end.
Proof. destruct c; reflexivity. Qed.

Lemma andThen_ok (m k : M) (w w1 : World) :
  m w = (None, w1) -> (m ;; k) w = k w1.
Proof. intros E. unfold andThen. now rewrite E. Qed.
Arguments andThen_ok {m k w w1} _.

Lemma andThen_err (m k : M) (w w1 : World) (e : error) :
  m w = (Some e, w1) -> (m ;; k) w = (Some e, w1).
Proof. intros E. unfold andThen. now rewrite E. Qed.
Arguments andThen_err {m k w w1 e} _.

Lemma withList_same (w : World) : withList w (instructionList_ w) = w.
Proof. now destruct w. Qed.

Section Properties.
Context `{InstructionCodec}.

Lemma syncSiblings_eq (v : VGNode -> PositionID -> M)
    (positionID : PositionID) (c : VGNode) (k : Z) :
  syncSiblings v positionID c k =
  (v c (childPositionID positionID k) ;;
   writeMoveToNextSibling ;;
   match NextSibling c with
   | Some next => syncSiblings v positionID next (wrapInt (k + 1))
   | None => ret
   end).
Proof. destruct c; reflexivity. Qed.

Lemma visitSyncNode_eq (bo : BuildOut) (n : VGNode)
    (positionID : PositionID) :
  visitSyncNode bo n positionID =
  (logPrintf "visitSyncNode" [] ;;
   match Type_ n with
   | ElementNode =>
       writeSetElement (Data n) ;; visitSyncElementEtc bo n positionID
   | TextNode => writeSetText (Data n)
   | CommentNode => writeSetComment (Data n)
   | _ => fail (Errorf "unknown node type %v" [ArgNodeType (Type_ n)])
   end).
Proof. destruct n; reflexivity. Qed.

(** *** One write *)

Lemma write_fits (i : instruction) (w : World) :
  fits w i ->
  exists w',
    write i w = (None, w') /\
    written w' = written w ++ [i] /\
    config w' = config w /\
    logOutput w' = logOutput w.
Proof.
  unfold fits, write, writeList.
  destruct w as [js sel [cap pend fl] lg]; simpl; intros Hfit.
  destruct (Nat.ltb_spec cap (encodedLen i)); [lia|].
  destruct (cap - _ <? encodedLen i); eexists; split; try reflexivity;
    unfold written, config; simpl; repeat split.
  - rewrite concat_app; simpl. now rewrite app_nil_r.
  - apply app_assoc.
Qed.

Lemma write_overflow (i : instruction) (w : World) :
  ~ fits w i -> write i w = (Some BufferOverflow, w).
Proof.
  unfold fits, write, writeList. intros Hno.
  destruct (Nat.ltb_spec (capacity (instructionList_ w)) (encodedLen i));
    [|lia].
  now rewrite withList_same.
Qed.

Lemma fits_dec (w : World) (i : instruction) : {fits w i} + {~ fits w i}.
Proof. unfold fits. apply le_dec. Qed.

Lemma write_ok_inv (i : instruction) (w w' : World) :
  write i w = (None, w') ->
  fits w i /\ written w' = written w ++ [i] /\ config w' = config w /\
  logOutput w' = logOutput w.
Proof.
  intros E. destruct (fits_dec w i) as [Hf|Hf].
  - destruct (write_fits Hf) as (w1 & E1 & ?).
    rewrite E in E1. injection E1 as <-. tauto.
  - rewrite (write_overflow Hf) in E. discriminate.
Qed.

Lemma fits_config (w w' : World) (i : instruction) :
  config w' = config w -> fits w i -> fits w' i.
Proof. unfold fits, config. intros E. now injection E as _ _ ->. Qed.

(** *** Composing traces *)

Section TraceRules.
Variable P : logLine -> Prop.

Lemma traces_ret : tracesWith P ret [].
Proof.
  intros w. unfold tracesAt. exists [], []. simpl. rewrite !app_nil_r.
  repeat split; auto. now exists [].
Qed.

Lemma traces_fail (e : error) (t : list instruction) :
  tracesWith P (fail e) t.
Proof.
  intros w. unfold tracesAt. exists [], []. simpl. rewrite !app_nil_r.
  repeat split; auto; [now exists t | discriminate].
Qed.

Lemma traces_logPrintf (format : string) (args : list fmtArg) :
  P (Printf format args) ->
  tracesWith P (logPrintf format args) [].
Proof.
  intros Hn w. unfold tracesAt. exists [], [Printf format args]. simpl.
  unfold written; simpl. rewrite !app_nil_r.
  repeat split; auto. now exists [].
Qed.

Lemma traces_write (i : instruction) : tracesWith P (write i) [i].
Proof.
  intros w. unfold tracesAt. destruct (fits_dec w i) as [Hf|Hf].
  - destruct (write_fits Hf) as (w' & -> & Hw & Hc & Hl). simpl.
    exists [i], []. rewrite app_nil_r.
    repeat split; auto. now exists [].
  - rewrite (write_overflow Hf). simpl.
    exists [], []. rewrite !app_nil_r.
    repeat split; auto; [now exists [i] | discriminate].
Qed.

Lemma traces_flush : tracesWith P flush [].
Proof.
  intros w. unfold tracesAt. exists [], []. unfold flush, written; simpl.
  rewrite concat_app; simpl. rewrite !app_nil_r.
  repeat split; auto. now exists [].
Qed.

Lemma tracesAt_andThen (w : World) (m k : M)
    (t1 t2 : list instruction) :
  tracesAt P w m t1 ->
  (forall w1, config w1 = config w -> tracesAt P w1 k t2) ->
  tracesAt P w (m ;; k) (t1 ++ t2).
Proof.
  intros Hm Hk. unfold tracesAt, andThen in *.
  destruct Hm as (d1 & l1 & Hw1 & Hc1 & Hl1 & Hn1 & [r1 Hp1] & Hd1).
  destruct (m w) as [[e|] w1]; simpl in *.
  - exists d1, l1. repeat split; auto; [|discriminate].
    exists (r1 ++ t2). now rewrite Hp1, app_assoc.
  - specialize (Hd1 eq_refl). subst d1.
    destruct (Hk w1 Hc1)
      as (d2 & l2 & Hw2 & Hc2 & Hl2 & Hn2 & [r2 Hp2] & Hd2).
    exists (t1 ++ d2), (l1 ++ l2). repeat split.
    + now rewrite Hw2, Hw1, app_assoc.
    + congruence.
    + now rewrite Hl2, Hl1, app_assoc.
    + now apply Forall_app.
    + exists r2. now rewrite Hp2, app_assoc.
    + intros E. now rewrite (Hd2 E).
Qed.

Lemma traces_andThen (m k : M) (t1 t2 : list instruction) :
  tracesWith P m t1 -> tracesWith P k t2 ->
  tracesWith P (m ;; k) (t1 ++ t2).
Proof.
  intros Hm Hk w. apply tracesAt_andThen; [apply Hm|].
  intros w1 _. apply Hk.
Qed.

Lemma traces_forRange (A : Type) (xs : list A) (body : A -> M)
    (f : A -> list instruction) :
  (forall x, tracesWith P (body x) (f x)) ->
  tracesWith P (forRange xs body) (flat_map f xs).
Proof.
  intros Hb. induction xs as [|x xs IH]; simpl.
  - apply traces_ret.
  - now apply traces_andThen.
Qed.

Lemma traces_trace (m : M) (t t' : list instruction) :
  t = t' -> tracesWith P m t -> tracesWith P m t'.
Proof. now intros ->. Qed.
End TraceRules.

(** What a trace says about a call that returned [nil]. *)
Lemma tracesAt_ok (P : logLine -> Prop) (m : M)
    (t : list instruction) (w w' : World) :
  tracesAt P w m t -> m w = (None, w') ->
  written w' = written w ++ t /\ config w' = config w /\
  exists l, logOutput w' = logOutput w ++ l /\ Forall P l.
Proof.
  intros (d & l & Hw & Hc & Hl & Hn & _ & Hd) E.
  rewrite E in *; simpl in *. rewrite (Hd eq_refl) in Hw. eauto.
Qed.

(** A trace stays one when more log lines are allowed. *)
Lemma tracesAt_weaken (P Q : logLine -> Prop) (w : World) (m : M)
    (t : list instruction) :
  (forall l, P l -> Q l) -> tracesAt P w m t -> tracesAt Q w m t.
Proof.
  intros HPQ (d & l & Hw & Hc & Hl & Hn & Hp & Hd).
  exists d, l. repeat split; auto.
  eapply Forall_impl; [|exact Hn]. exact HPQ.
Qed.

Lemma andThen_ok_inv (m k : M) (w w' : World) :
  (m ;; k) w = (None, w') ->
  exists w1, m w = (None, w1) /\ k w1 = (None, w').
Proof.
  unfold andThen. destruct (m w) as [[e|] w1]; [discriminate|]. eauto.
Qed.

End Properties.

Lemma flat_map_singleton (A B : Type) (f : A -> B) (xs : list A) :
  flat_map (fun x => [f x]) xs = map f xs.
Proof. induction xs; simpl; congruence. Qed.

(** [wrapInt] leaves the values of a 64 bit [int] alone. *)
Lemma wrapInt_small (z : Z) :
  (- 2 ^ 63 <= z < 2 ^ 63)%Z -> wrapInt z = z.
Proof.
  intros Hz. unfold wrapInt. rewrite Z.mod_small; lia.
Qed.

Section Traversal.
Context `{InstructionCodec}.

Lemma notStructural_visitSyncNode :
  notStructural (Printf "visitSyncNode" []).
Proof. split; discriminate. Qed.

(** [if len(xs) > 0 { for ... range xs }] is the loop alone. *)
Lemma forRange_guarded (A : Type) (xs : list A) (body : A -> M) :
  (if 0 <? List.length xs then forRange xs body else ret) =
  forRange xs body.
Proof. now destruct xs. Qed.

Lemma traces_syncElementTail (v : VGNode -> PositionID -> M)
    (f : VGNode -> PositionID -> list instruction) (n : VGNode)
    (positionID : PositionID) :
  (forall c k, FirstChild n = Some c ->
               traces (syncSiblings v positionID c k)
                      (siblingsInstrs f positionID c k)) ->
  traces (syncElementTail v n positionID) (elementRest f n positionID).
Proof.
  unfold traces, syncElementTail, elementRest. intros Hs.
  destruct (InnerHTML n) as [html|]; [apply traces_write|].
  destruct (FirstChild n) as [first|]; [|apply traces_ret].
  apply (traces_andThen (t1 := [MoveToFirstChild])); [apply traces_write|].
  apply traces_andThen; [now apply Hs | apply traces_write].
Qed.

(** The writes before the test of [n.InnerHTML], then the rest. *)
Lemma traces_syncElementEtc_tail (P : logLine -> Prop)
    (v : VGNode -> PositionID -> M) (n : VGNode)
    (positionID : PositionID) (tr : list instruction) :
  tracesWith P (syncElementTail v n positionID) tr ->
  tracesWith P (syncElementEtc v n positionID)
             (elementPrefix n positionID ++ tr).
Proof.
  intros HT. unfold syncElementEtc, elementPrefix.
  rewrite forRange_guarded.
  assert (HA : tracesWith P
                 (forRange (Attr n)
                    (fun a => writeSetAttrStr (Key a) (Val a)))
                 (attrInstrs n)).
  { unfold attrInstrs. rewrite <- flat_map_singleton.
    apply traces_forRange. intros a. apply traces_write. }
  assert (HL : tracesWith P
                 (forRange (DOMEventHandlerSpecList n)
                    (fun hs => writeSetEventListener positionID
                                 (EventType hs) (Capture hs) (Passive hs)))
                 (listenerInstrs n positionID)).
  { unfold listenerInstrs. rewrite <- flat_map_singleton.
    apply traces_forRange. intros hs. apply traces_write. }
  eapply traces_trace;
    [| exact (traces_andThen HA
               (traces_andThen (traces_write _ RemoveOtherAttrs)
                  (traces_andThen HL
                     (traces_andThen
                        (traces_write _
                           (RemoveOtherEventListeners positionID))
                        HT))))].
  now rewrite <- !app_assoc.
Qed.

Lemma traces_syncElementEtc (v : VGNode -> PositionID -> M)
    (f : VGNode -> PositionID -> list instruction) (n : VGNode)
    (positionID : PositionID) :
  (forall c k, FirstChild n = Some c ->
               traces (syncSiblings v positionID c k)
                      (siblingsInstrs f positionID c k)) ->
  traces (syncElementEtc v n positionID)
         (elementPrefix n positionID ++ elementRest f n positionID).
Proof.
  intros Hs. apply traces_syncElementEtc_tail.
  now apply traces_syncElementTail.
Qed.

Lemma traces_visitSyncNode_siblings (bo : BuildOut) (n : VGNode) :
  (forall positionID,
      traces (visitSyncNode bo n positionID) (nodeInstrs n positionID)) /\
  (forall positionID k,
      traces (syncSiblings (visitSyncNode bo) positionID n k)
             (siblingsInstrs nodeInstrs positionID n k)).
Proof.
  induction n as [n IHc IHs] using VGNode_pointer_ind.
  assert (Hnode : forall positionID,
             traces (visitSyncNode bo n positionID)
                    (nodeInstrs n positionID)).
  { intros positionID. rewrite visitSyncNode_eq, nodeInstrs_eq.
    apply (traces_andThen (t1 := []));
      [apply traces_logPrintf, notStructural_visitSyncNode|].
    destruct (Type_ n).
    - apply (traces_andThen (t1 := [SetElement (Data n)]));
        [apply traces_write|].
      apply traces_syncElementEtc. intros c k Hc. now apply (IHc c Hc).
    - apply traces_write.
    - apply traces_write.
    - apply traces_fail. }
  split; [exact Hnode|].
  intros positionID k. rewrite syncSiblings_eq, siblingsInstrs_eq.
  apply traces_andThen; [apply Hnode|].
  apply (traces_andThen (t1 := [MoveToNextSibling]));
    [apply traces_write|].
  destruct (NextSibling n) as [next|];
    [now apply (IHs next eq_refl) | apply traces_ret].
Qed.

Lemma traces_visitSyncNode (bo : BuildOut) (n : VGNode)
    (positionID : PositionID) :
  traces (visitSyncNode bo n positionID) (nodeInstrs n positionID).
Proof. apply traces_visitSyncNode_siblings. Qed.

Lemma traces_visitSyncElementTail (bo : BuildOut) (n : VGNode)
    (positionID : PositionID) :
  traces (syncElementTail (visitSyncNode bo) n positionID)
         (elementRest nodeInstrs n positionID).
Proof.
  apply traces_syncElementTail. intros c k _.
  apply traces_visitSyncNode_siblings.
Qed.

Lemma traces_visitSyncElementEtc (bo : BuildOut) (n : VGNode)
    (positionID : PositionID) :
  traces (visitSyncElementEtc bo n positionID)
         (elementEtcInstrs n positionID).
Proof.
  apply traces_syncElementEtc. intros c k _.
  apply traces_visitSyncNode_siblings.
Qed.
End Traversal.

(** ** Attributes, listeners and raw content *)

Section ElementSync.
Context `{InstructionCodec}.

Lemma forRange_write_fits (A : Type) (g : A -> instruction)
    (xs : list A) (w : World) :
  Forall (fits w) (map g xs) ->
  exists w',
    forRange xs (fun x => write (g x)) w = (None, w') /\
    written w' = written w ++ map g xs /\
    config w' = config w /\
    logOutput w' = logOutput w.
Proof.
  revert w. induction xs as [|x xs IH]; simpl; intros w Hfit.
  - exists w. now rewrite app_nil_r.
  - inversion Hfit as [|? ? Hx Hxs]; subst.
    destruct (write_fits Hx) as (w1 & E1 & Hw1 & Hc1 & Hl1).
    destruct (IH w1) as (w2 & E2 & Hw2 & Hc2 & Hl2).
    { eapply Forall_impl; [|exact Hxs].
      intros i. now apply fits_config. }
    exists w2. rewrite (andThen_ok E1). repeat split; try congruence.
    now rewrite Hw2, Hw1, <- app_assoc.
Qed.

(** When the attribute and listener instructions fit, the visitor gets
    past them with exactly these written. *)
Lemma syncElementEtc_prefix_run (v : VGNode -> PositionID -> M)
    (n : VGNode) (positionID : PositionID) (w : World) :
  Forall (fits w) (elementPrefix n positionID) ->
  exists w1,
    syncElementEtc v n positionID w = syncElementTail v n positionID w1 /\
    written w1 = written w ++ elementPrefix n positionID /\
    config w1 = config w /\
    logOutput w1 = logOutput w.
Proof.
  unfold elementPrefix. intros Hfit.
  apply Forall_app in Hfit as [Ha Hfit].
  apply Forall_app in Hfit as [Hroa Hfit].
  apply Forall_app in Hfit as [Hl Hroel].
  apply Forall_inv in Hroa. apply Forall_inv in Hroel.
  pose proof (fun w' (E : config w' = config w) i =>
                @fits_config _ w w' i E) as Hcfg.
  destruct (forRange_write_fits _ _ Ha) as (w1 & E1 & Hw1 & Hc1 & Hl1).
  destruct (@write_fits _ RemoveOtherAttrs w1)
    as (w2 & E2 & Hw2 & Hc2 & Hl2); [now apply Hcfg|].
  destruct (forRange_write_fits
              (fun hs => SetEventListener positionID (EventType hs)
                           (Capture hs) (Passive hs))
              (DOMEventHandlerSpecList n) (w := w2))
    as (w3 & E3 & Hw3 & Hc3 & Hl3).
  { eapply Forall_impl; [|exact Hl]. intros i. apply Hcfg. congruence. }
  destruct (@write_fits _ (RemoveOtherEventListeners positionID) w3)
    as (w4 & E4 & Hw4 & Hc4 & Hl4); [apply Hcfg; congruence; fail|].
  exists w4. unfold syncElementEtc. rewrite forRange_guarded.
  unfold writeSetAttrStr, writeSetEventListener.
  rewrite (andThen_ok E1).
  unfold writeRemoveOtherAttrs. rewrite (andThen_ok E2).
  rewrite (andThen_ok E3).
  unfold writeRemoveOtherEventListeners. rewrite (andThen_ok E4).
  repeat split; try congruence.
  rewrite Hw4, Hw3, Hw2, Hw1. unfold attrInstrs, listenerInstrs.
  now rewrite <- !app_assoc.
Qed.

Lemma Forall_False_nil (A : Type) (l : list A) :
  Forall (fun _ => False) l -> l = [].
Proof. destruct l; [reflexivity|]. intros F. now inversion F. Qed.

(** C1.  Whenever the attribute and listener instructions of an element
    fit the buffer, what [visitSyncElementEtc] writes begins with one
    [SetAttr] per entry of [n.Attr] in list order, one
    [RemoveOtherAttrs], one [SetEventListener] per entry of
    [n.DOMEventHandlerSpecList] carrying the position id of the node and
    the event type, capture and passive flags of the entry, and one
    [RemoveOtherEventListeners] carrying the position id; this holds for
    an empty attribute list and an empty handler list too, and whatever
    happens later in the node. *)
Theorem visitSyncElementEtc_attrs_then_listeners (bo : BuildOut)
    (n : VGNode) (positionID : PositionID) (w : World) :
  Forall (fits w) (elementPrefix n positionID) ->
  exists rest,
    written (snd (visitSyncElementEtc bo n positionID w)) =
    written w ++
    map (fun a => SetAttr (Key a) (Val a)) (Attr n) ++
    [RemoveOtherAttrs] ++
    map (fun hs => SetEventListener positionID (EventType hs)
                     (Capture hs) (Passive hs))
        (DOMEventHandlerSpecList n) ++
    [RemoveOtherEventListeners positionID] ++
    rest.
Proof.
  intros Hfit. unfold visitSyncElementEtc.
  destruct (syncElementEtc_prefix_run (visitSyncNode bo) _ _ Hfit)
    as (w1 & -> & Hw1 & _ & _).
  destruct (traces_visitSyncElementTail bo n positionID w1)
    as (d & _ & Hd & _).
  exists d. rewrite Hd, Hw1. unfold elementPrefix, attrInstrs, listenerInstrs.
  now rewrite <- !app_assoc.
Qed.

(** C2.  For an element whose [InnerHTML] is not nil,
    [visitSyncElementEtc] never writes anything beyond the attribute and
    listener instructions followed by [SetInnerHTML] with that content,
    and it logs nothing, so no child is visited; when these instructions
    fit the buffer it returns nil having written exactly them.  The
    children of the node play no part. *)
Theorem visitSyncElementEtc_innerHTML (bo : BuildOut) (n : VGNode)
    (positionID : PositionID) (html : string) (w : World) :
  InnerHTML n = Some html ->
  (exists d t',
      written (snd (visitSyncElementEtc bo n positionID w)) =
      written w ++ d /\
      elementPrefix n positionID ++ [SetInnerHTML html] = d ++ t') /\
  logOutput (snd (visitSyncElementEtc bo n positionID w)) = logOutput w /\
  (Forall (fits w) (elementPrefix n positionID ++ [SetInnerHTML html]) ->
   fst (visitSyncElementEtc bo n positionID w) = None /\
   written (snd (visitSyncElementEtc bo n positionID w)) =
   written w ++ elementPrefix n positionID ++ [SetInnerHTML html]).
Proof.
  intros Hraw. unfold visitSyncElementEtc.
  assert (HT : tracesWith (fun _ => False)
                 (syncElementEtc (visitSyncNode bo) n positionID)
                 (elementPrefix n positionID ++ [SetInnerHTML html])).
  { apply traces_syncElementEtc_tail. unfold syncElementTail.
    rewrite Hraw. apply traces_write. }
  destruct (HT w) as (d & l & Hd & _ & Hl & Hnil & [t' Ht'] & Hok).
  apply Forall_False_nil in Hnil. subst l. rewrite app_nil_r in Hl.
  split; [now exists d, t'|]. split; [exact Hl|].
  intros Hfit. apply Forall_app in Hfit as [Hpre Hset].
  apply Forall_inv in Hset.
  destruct (syncElementEtc_prefix_run (visitSyncNode bo) _ _ Hpre)
    as (w1 & E & Hw1 & Hc1 & _).
  rewrite E in *. unfold syncElementTail in *. rewrite Hraw in *.
  destruct (@write_fits _ (SetInnerHTML html) w1)
    as (w2 & E2 & Hw2 & _); [now apply (fits_config Hc1)|].
  unfold writeSetInnerHTML. rewrite E2. simpl.
  split; [reflexivity|]. now rewrite Hw2, Hw1, <- app_assoc.
Qed.
End ElementSync.

(** ** The render pass *)

Lemma config_selector (w w' : World) :
  config w' = config w -> MountPointSelector w' = MountPointSelector w.
Proof. unfold config. intros E. now injection E. Qed.

Lemma flat_map_nil (A B : Type) (xs : list A) :
  flat_map (fun _ : A => @nil B) xs = [].
Proof. induction xs; simpl; auto. Qed.

Section RenderPass.
Context `{InstructionCodec}.

Lemma tracesAt_ext (P : logLine -> Prop) (w : World) (m m' : M)
    (t : list instruction) :
  m w = m' w -> tracesAt P w m' t -> tracesAt P w m t.
Proof. unfold tracesAt. now intros ->. Qed.

Lemma tracesAt_trace (P : logLine -> Prop) (w : World) (m : M)
    (t t' : list instruction) :
  t = t' -> tracesAt P w m t -> tracesAt P w m t'.
Proof. now intros ->. Qed.

(** The loop over the children of an [html] root writes nothing. *)
Lemma traces_htmlChildren (P : logLine -> Prop) (bo : BuildOut)
    (positionID : PositionID) (cs : list VGNode) :
  (forall l, P l) ->
  tracesWith P (forRange cs (visitHtmlChild bo positionID)) [].
Proof.
  intros HP. rewrite <- (flat_map_nil instruction cs).
  apply traces_forRange. intros c. unfold visitHtmlChild.
  destruct (ToLower (Data c) =? "head")%string;
    [apply traces_logPrintf, HP|].
  destruct (ToLower (Data c) =? "body")%string;
    [apply traces_logPrintf, HP | apply traces_fail].
Qed.

Lemma tracesAt_visitMount (bo : BuildOut) (n : VGNode)
    (positionID : PositionID) (w : World) :
  tracesAt notStructural w (visitMount bo n positionID)
    (SelectMountPoint (MountPointSelector w) (Data n) ::
     elementEtcInstrs n positionID).
Proof.
  unfold visitMount.
  apply (tracesAt_andThen (t1 := []));
    [apply traces_logPrintf; split; discriminate|].
  intros w1 E1.
  apply (tracesAt_andThen
           (t1 := [SelectMountPoint (MountPointSelector w) (Data n)])).
  - apply tracesAt_ext
      with (m' := write (SelectMountPoint (MountPointSelector w) (Data n))).
    + now rewrite (config_selector E1).
    + apply traces_write.
  - intros w2 _. apply traces_visitSyncElementEtc.
Qed.

Lemma tracesAt_visitFirst (P : logLine -> Prop) (bo : BuildOut)
    (n : VGNode) (positionID : PositionID) (w : World) :
  (forall l, notStructural l -> P l) ->
  ((ToLower (Data n) =? "html")%string = true -> forall l, P l) ->
  tracesAt P w (visitFirst bo n positionID)
    (visitFirstInstrs (MountPointSelector w) n positionID).
Proof.
  intros Hns Hhtml. unfold visitFirst, visitFirstInstrs.
  apply (tracesAt_andThen (t1 := []));
    [apply traces_logPrintf, Hns; split; discriminate|].
  intros w1 E1.
  apply (tracesAt_andThen (t1 := []));
    [apply traces_logPrintf, Hns; split; discriminate|].
  intros w2 E2.
  destruct (negb (VGNodeType_eqb (Type_ n) ElementNode));
    [apply traces_fail|].
  apply (tracesAt_andThen (t1 := [ClearElement])); [apply traces_write|].
  intros w3 E3.
  destruct (ToLower (Data n) =? "html")%string.
  - apply traces_htmlChildren. now apply Hhtml.
  - replace (MountPointSelector w) with (MountPointSelector w3)
      by (apply config_selector; congruence).
    eapply tracesAt_weaken; [exact Hns | apply tracesAt_visitMount].
Qed.

Lemma tracesAt_Render (P : logLine -> Prop) (bo : BuildOut)
    (el : VGNode) (w : World) :
  Doc bo = Some el ->
  (forall l, notStructural l -> P l) ->
  ((ToLower (Data el) =? "html")%string = true -> forall l, P l) ->
  tracesAt P w (Render (Some bo))
    (visitFirstInstrs (MountPointSelector w) el (list_byte_of_string "0")).
Proof.
  intros Hdoc Hns Hhtml.
  set (t := visitFirstInstrs _ _ _).
  destruct (jsGlobalTruthy w) eqn:Hjs.
  2: { apply tracesAt_ext
         with (m' := fail (Errorf "js environment not available" []));
         [unfold Render; now rewrite Hjs | apply traces_fail]. }
  destruct (VGNodeType_eqb (Type_ el) ElementNode) eqn:Hty.
  2: { apply tracesAt_ext
         with (m' := fail (Errorf
                             "BuildOut.Doc.Type is (%v), not ElementNode"
                             [ArgNodeType (Type_ el)]));
         [unfold Render; now rewrite Hjs, Hdoc, Hty | apply traces_fail]. }
  eapply tracesAt_ext;
    [unfold Render; rewrite Hjs, Hdoc, Hty; reflexivity|].
  apply (tracesAt_andThen (t1 := []));
    [apply traces_logPrintf, Hns; split; discriminate|].
  intros w1 E1.
  apply (tracesAt_andThen (t1 := []));
    [apply traces_logPrintf, Hns; split; discriminate|].
  intros w2 E2.
  apply tracesAt_trace with (t := t ++ []); [apply app_nil_r|].
  apply tracesAt_andThen.
  - subst t.
    replace (MountPointSelector w) with (MountPointSelector w2)
      by (apply config_selector; congruence).
    now apply tracesAt_visitFirst.
  - intros w3 _. apply traces_flush.
Qed.

(** A pass that returns [nil] had a document to render and wrote the
    instructions of [visitFirst] for it. *)
Lemma Render_ok (bo : option BuildOut) (w w' : World) :
  Render bo w = (None, w') ->
  exists b el,
    bo = Some b /\ Doc b = Some el /\
    written w' =
    written w ++
    visitFirstInstrs (MountPointSelector w) el (list_byte_of_string "0") /\
    config w' = config w.
Proof.
  intros E.
  assert (exists b el, bo = Some b /\ Doc b = Some el)
    as (b & el & -> & Hdoc).
  { unfold Render in E. destruct (jsGlobalTruthy w); [|discriminate].
    destruct bo as [b|]; [|discriminate].
    destruct (Doc b) as [el|] eqn:Hdoc; [|discriminate].
    now exists b, el. }
  exists b, el. repeat split; auto;
    apply (tracesAt_ok
             (@tracesAt_Render (fun _ => True) b el w Hdoc
                (fun _ _ => I) (fun _ _ => I)) E).
Qed.
End RenderPass.

(** ** When a pass returns nil *)

Lemma typesKnown_eq (n : VGNode) :
  typesKnown n =
  match Type_ n with
  | ElementNode => elementKnown typesKnown n
  | TextNode | CommentNode => true
  | DocumentNode => false
  end.
Proof. destruct n; reflexivity. Qed.

Lemma siblingsKnown_eq (f : VGNode -> bool) (c : VGNode) :
  siblingsKnown f c =
  f c && match NextSibling c with
         | Some next => siblingsKnown f next
         | None => true
         end.
Proof. destruct c; reflexivity. Qed.

Section Success.
Context `{InstructionCodec}.

Lemma succeedsAt_andThen (P : logLine -> Prop) (w : World) (m k : M)
    (t1 t2 : list instruction) :
  tracesAt P w m t1 ->
  succeedsAt w m t1 ->
  (forall w1, config w1 = config w -> succeedsAt w1 k t2) ->
  succeedsAt w (m ;; k) (t1 ++ t2).
Proof.
  intros Ht Hm Hk Hfit. apply Forall_app in Hfit as [H1 H2].
  specialize (Hm H1). destruct Ht as (d & l & _ & Hc & _).
  unfold andThen. destruct (m w) as [[e|] w1]; simpl in *; [discriminate|].
  apply Hk; [exact Hc|].
  eapply Forall_impl; [|exact H2]. intros i. now apply fits_config.
Qed.

Lemma succeeds_andThen (P : logLine -> Prop) (m k : M)
    (t1 t2 : list instruction) :
  tracesWith P m t1 -> succeeds m t1 -> succeeds k t2 ->
  succeeds (m ;; k) (t1 ++ t2).
Proof.
  intros Ht Hm Hk w.
  apply succeedsAt_andThen with (P := P); [apply Ht | apply Hm |].
  intros w1 _. apply Hk.
Qed.

Lemma succeeds_ret (t : list instruction) : succeeds ret t.
Proof. now intros w _. Qed.

Lemma succeeds_logPrintf (format : string) (args : list fmtArg)
    (t : list instruction) :
  succeeds (logPrintf format args) t.
Proof. now intros w _. Qed.

Lemma succeeds_flush (t : list instruction) : succeeds flush t.
Proof. now intros w _. Qed.

Lemma succeeds_write (i : instruction) : succeeds (write i) [i].
Proof.
  intros w Hfit. apply Forall_inv in Hfit.
  now destruct (write_fits Hfit) as (w' & -> & _).
Qed.

Lemma succeeds_forRange (A : Type) (xs : list A) (body : A -> M)
    (f : A -> list instruction) :
  (forall x, tracesWith (fun _ => True) (body x) (f x)) ->
  (forall x, succeeds (body x) (f x)) ->
  succeeds (forRange xs body) (flat_map f xs).
Proof.
  intros Ht Hb. induction xs as [|x xs IH]; simpl.
  - apply succeeds_ret.
  - eapply succeeds_andThen; eauto.
Qed.

Lemma traces_any (m : M) (t : list instruction) :
  traces m t -> tracesWith (fun _ => True) m t.
Proof. intros Ht w. eapply tracesAt_weaken; [|apply Ht]. auto. Qed.

Lemma succeeds_syncElementTail (v : VGNode -> PositionID -> M)
    (f : VGNode -> PositionID -> list instruction) (n : VGNode)
    (positionID : PositionID) :
  (forall c k, FirstChild n = Some c -> InnerHTML n = None ->
               traces (syncSiblings v positionID c k)
                      (siblingsInstrs f positionID c k) /\
               succeeds (syncSiblings v positionID c k)
                        (siblingsInstrs f positionID c k)) ->
  succeeds (syncElementTail v n positionID) (elementRest f n positionID).
Proof.
  unfold syncElementTail, elementRest. intros Hs.
  destruct (InnerHTML n) as [html|]; [apply succeeds_write|].
  destruct (FirstChild n) as [first|]; [|apply succeeds_ret].
  destruct (Hs first 1%Z eq_refl eq_refl) as [Ht Hok].
  apply (succeeds_andThen (P := fun _ => True) (t1 := [MoveToFirstChild]));
    [apply traces_write | apply succeeds_write |].
  eapply succeeds_andThen;
    [apply traces_any, Ht | exact Hok | apply succeeds_write].
Qed.

Lemma succeeds_syncElementEtc_tail (v : VGNode -> PositionID -> M)
    (n : VGNode) (positionID : PositionID) (tr : list instruction) :
  succeeds (syncElementTail v n positionID) tr ->
  succeeds (syncElementEtc v n positionID)
           (elementPrefix n positionID ++ tr).
Proof.
  intros HT w Hfit. apply Forall_app in Hfit as [Hpre Htr].
  destruct (syncElementEtc_prefix_run v _ _ Hpre) as (w1 & -> & _ & Hc & _).
  apply HT. eapply Forall_impl; [|exact Htr].
  intros i. now apply fits_config.
Qed.

Lemma succeeds_visitSyncNode_siblings (bo : BuildOut) (n : VGNode) :
  (typesKnown n = true ->
   forall positionID,
     succeeds (visitSyncNode bo n positionID) (nodeInstrs n positionID)) /\
  (siblingsKnown typesKnown n = true ->
   forall positionID k,
     succeeds (syncSiblings (visitSyncNode bo) positionID n k)
              (siblingsInstrs nodeInstrs positionID n k)).
Proof.
  induction n as [n IHc IHs] using VGNode_pointer_ind.
  assert (Hnode : typesKnown n = true ->
                  forall positionID,
                    succeeds (visitSyncNode bo n positionID)
                             (nodeInstrs n positionID)).
  { intros Hk positionID. rewrite typesKnown_eq in Hk.
    rewrite visitSyncNode_eq, nodeInstrs_eq.
    apply (succeeds_andThen (P := fun _ => True) (t1 := []));
      [now apply traces_logPrintf | apply succeeds_logPrintf |].
    destruct (Type_ n); [| apply succeeds_write | apply succeeds_write
                         | discriminate].
    apply (succeeds_andThen (P := fun _ => True)
             (t1 := [SetElement (Data n)]));
      [apply traces_write | apply succeeds_write |].
    apply succeeds_syncElementEtc_tail, succeeds_syncElementTail.
    intros c k Hc Hraw. split; [apply traces_visitSyncNode_siblings|].
    apply (IHc c Hc). unfold elementKnown in Hk.
    now rewrite Hraw, Hc in Hk. }
  split; [exact Hnode|].
  intros Hk positionID k. rewrite siblingsKnown_eq in Hk.
  apply andb_prop in Hk as [Hn Hnext].
  rewrite syncSiblings_eq, siblingsInstrs_eq.
  eapply succeeds_andThen;
    [apply traces_any, traces_visitSyncNode | now apply Hnode |].
  apply (succeeds_andThen (P := fun _ => True) (t1 := [MoveToNextSibling]));
    [apply traces_write | apply succeeds_write |].
  destruct (NextSibling n) as [next|];
    [now apply (IHs next eq_refl) | apply succeeds_ret].
Qed.

(** An element all of whose reachable descendants have a known type, and
    all of whose instructions fit the buffer, is synced without error. *)
Lemma visitSyncElementEtc_succeeds (bo : BuildOut) (n : VGNode)
    (positionID : PositionID) :
  elementKnown typesKnown n = true ->
  succeeds (visitSyncElementEtc bo n positionID)
           (elementEtcInstrs n positionID).
Proof.
  intros Hk. apply succeeds_syncElementEtc_tail, succeeds_syncElementTail.
  intros c k Hc Hraw. split; [apply traces_visitSyncNode_siblings|].
  apply succeeds_visitSyncNode_siblings. unfold elementKnown in Hk.
  now rewrite Hraw, Hc in Hk.
Qed.

(** [Render] returns nil for a mounted root when the JS environment is
    there, every reachable node has a known type and every instruction of
    the pass fits the buffer. *)
Lemma Render_succeeds (bo : BuildOut) (el : VGNode) (w : World) :
  jsGlobalTruthy w = true ->
  Doc bo = Some el ->
  Type_ el = ElementNode ->
  ToLower (Data el) <> "html" ->
  elementKnown typesKnown el = true ->
  Forall (fits w)
    (ClearElement :: SelectMountPoint (MountPointSelector w) (Data el) ::
     elementEtcInstrs el (list_byte_of_string "0")) ->
  fst (Render (Some bo) w) = None.
Proof.
  intros Hjs Hdoc Hty Hhtml Hk Hfit. apply String.eqb_neq in Hhtml.
  set (sel := MountPointSelector w) in *.
  set (p := list_byte_of_string "0") in *.
  set (T := ClearElement :: SelectMountPoint sel (Data el) ::
            elementEtcInstrs el p) in *.
  assert (Hsel : forall w1, config w1 = config w ->
                            MountPointSelector w1 = sel)
    by (intros w1 E; apply (config_selector E)).
  assert (Hmount : forall w1, config w1 = config w ->
             succeedsAt w1 (visitMount bo el p)
               (SelectMountPoint sel (Data el) :: elementEtcInstrs el p)).
  { intros w1 E1. unfold visitMount.
    apply (succeedsAt_andThen (P := fun _ => True) (t1 := []));
      [now apply traces_logPrintf | apply succeeds_logPrintf |].
    intros w2 E2.
    assert (E : MountPointSelector w2 = sel) by (apply Hsel; congruence).
    apply (succeedsAt_andThen (P := fun _ => True)
             (t1 := [SelectMountPoint sel (Data el)])).
    - apply tracesAt_ext with (m' := write (SelectMountPoint sel (Data el)));
        [now rewrite E | apply traces_write].
    - intros Hf. cbv beta. rewrite E. now apply succeeds_write.
    - intros w3 _. now apply visitSyncElementEtc_succeeds. }
  assert (Hfirst : forall w1, config w1 = config w ->
             succeedsAt w1 (visitFirst bo el p) T).
  { intros w1 E1. unfold visitFirst.
    apply (succeedsAt_andThen (P := fun _ => True) (t1 := []));
      [now apply traces_logPrintf | apply succeeds_logPrintf |].
    intros w2 E2.
    apply (succeedsAt_andThen (P := fun _ => True) (t1 := []));
      [now apply traces_logPrintf | apply succeeds_logPrintf |].
    intros w3 E3. rewrite Hty, Hhtml. simpl negb. cbv iota.
    apply (succeedsAt_andThen (P := fun _ => True) (t1 := [ClearElement]));
      [apply traces_write | apply succeeds_write |].
    intros w4 E4. apply Hmount. congruence. }
  assert (Hbody : succeedsAt w
            (logPrintf "BuildOut: %#v" [ArgBuildOut bo] ;;
             logPrintf "el: %#v" [ArgNode el] ;;
             visitFirst bo el p ;; flush) (T ++ [])).
  { apply (succeedsAt_andThen (P := fun _ => True) (t1 := []));
      [now apply traces_logPrintf | apply succeeds_logPrintf |].
    intros w1 E1.
    apply (succeedsAt_andThen (P := fun _ => True) (t1 := []));
      [now apply traces_logPrintf | apply succeeds_logPrintf |].
    intros w2 E2.
    apply (succeedsAt_andThen (P := fun _ => True) (t1 := T) (t2 := [])).
    - pose proof (@tracesAt_visitFirst _ (fun _ => True) bo el p w2
                    (fun _ _ => I) (fun _ _ => I)) as Ht.
      unfold visitFirstInstrs in Ht. rewrite Hhtml in Ht.
      rewrite (Hsel w2) in Ht by congruence. exact Ht.
    - apply Hfirst. congruence.
    - intros w3 _. apply succeeds_flush. }
  unfold Render. rewrite Hjs, Hdoc, Hty. simpl negb. cbv iota.
  apply Hbody. now rewrite app_nil_r.
Qed.
End Success.

(** ** Children and their position ids *)

Lemma siblingsFrom_length (c : VGNode) : 1 <= List.length (siblingsFrom c).
Proof. rewrite siblingsFrom_eq. simpl. lia. Qed.

(** While the counter stays below 2^63, the loop visits the k-th sibling
    with the counter at k. *)
Lemma siblingsInstrs_numbered
    (f : VGNode -> PositionID -> list instruction)
    (positionID : PositionID) (c : VGNode) :
  forall s : nat,
    (Z.of_nat s + Z.of_nat (List.length (siblingsFrom c)) <= 2 ^ 63)%Z ->
    siblingsInstrs f positionID c (Z.of_nat s) =
    flat_map
      (fun ic => f (snd ic) (childPositionID positionID (Z.of_nat (fst ic)))
                 ++ [MoveToNextSibling])
      (combine (seq s (List.length (siblingsFrom c))) (siblingsFrom c)).
Proof.
  induction c as [c _ IHs] using VGNode_pointer_ind. intros s Hs.
  rewrite siblingsInstrs_eq, siblingsFrom_eq.
  rewrite siblingsFrom_eq in Hs.
  simpl. rewrite <- app_assoc. simpl. do 2 f_equal.
  destruct (NextSibling c) as [next|]; [|reflexivity].
  pose proof (siblingsFrom_length next) as Hlen.
  simpl List.length in Hs.
  rewrite wrapInt_small by lia.
  replace (Z.of_nat s + 1)%Z with (Z.of_nat (S s)) by lia.
  apply (IHs next eq_refl). lia.
Qed.

Example childPositionID_first :
  childPositionID (list_byte_of_string "0") 1 = list_byte_of_string "0_1".
Proof. reflexivity. Qed.

Example childPositionID_nested :
  childPositionID (childPositionID (list_byte_of_string "0") 2) 13 =
  list_byte_of_string "0_2_13".
Proof. reflexivity. Qed.

Section Claims.
Context `{InstructionCodec}.

(** The loop of the code, with its wrapping counter, writes what the
    specification says while a node has fewer than 2^63 children. *)
Lemma elementRest_spec (n : VGNode) (positionID : PositionID) :
  InnerHTML n = None ->
  (Z.of_nat (List.length (children n)) < 2 ^ 63)%Z ->
  elementRest nodeInstrs n positionID = specChildrenInstrs n positionID.
Proof.
  unfold elementRest, specChildrenInstrs, children, numbered.
  intros -> Hlen. destruct (FirstChild n) as [first|]; [|reflexivity].
  rewrite (siblingsFrom_eq first) at 1.
  change 1%Z with (Z.of_nat 1).
  rewrite siblingsInstrs_numbered by lia. reflexivity.
Qed.


(** C4.  [Render] returns an error and leaves the world as it was, with
    no instruction written and nothing flushed or logged, whenever [bo]
    is nil, [bo.Doc] is nil or [bo.Doc.Type] is not [ElementNode].
    [visitFirst] makes the test of the type once more and, were it called
    on another node, returns ["root of component must be element"] before
    it writes anything. *)
Theorem Render_rejects_bad_input (bo : option BuildOut) (w : World) :
  bo = None \/
  (exists b, bo = Some b /\
     (Doc b = None \/
      exists el, Doc b = Some el /\ Type_ el <> ElementNode)) ->
  (exists e, Render bo w = (Some e, w)) /\
  (forall b n positionID,
      Type_ n <> ElementNode ->
      fst (visitFirst b n positionID w) =
      Some (Errorf "root of component must be element" []) /\
      instructionList_ (snd (visitFirst b n positionID w)) =
      instructionList_ w).
Proof.
  intros Hbad. split.
  2: { intros b n positionID Hty. unfold visitFirst, andThen. simpl.
       destruct (Type_ n); [now contradiction Hty | | |]; now split. }
  unfold Render, fail.
  destruct (jsGlobalTruthy w); simpl; [|eauto].
  destruct Hbad as [->|(b & -> & [Hdoc|(el & Hdoc & Hty)])];
    [eauto | rewrite Hdoc; eauto |].
  rewrite Hdoc.
  destruct (Type_ el); simpl; eauto. now contradiction Hty.
Qed.

(** A root that is an element with another tag than ["html"], with room
    in the buffer for the first two instructions, is cleared, mounted and
    handed to [visitSyncElementEtc]. *)
Lemma visitFirst_mount_run (bo : BuildOut) (el : VGNode)
    (positionID : PositionID) (w : World) :
  Type_ el = ElementNode ->
  (ToLower (Data el) =? "html")%string = false ->
  fits w ClearElement ->
  fits w (SelectMountPoint (MountPointSelector w) (Data el)) ->
  exists w',
    visitFirst bo el positionID w = visitSyncElementEtc bo el positionID w' /\
    written w' =
    written w ++
    [ClearElement; SelectMountPoint (MountPointSelector w) (Data el)] /\
    config w' = config w.
Proof.
  intros Hty Hhtml Hclear Hmount. unfold visitFirst.
  unfold andThen at 1 2. cbn [logPrintf].
  set (w2 := mkWorld _ _ _ _).
  assert (C2 : config w2 = config w) by reflexivity.
  assert (W2 : written w2 = written w) by reflexivity.
  rewrite Hty, Hhtml. cbn [negb VGNodeType_eqb].
  destruct (@write_fits _ ClearElement w2 (fits_config C2 Hclear))
    as (w3 & E3 & W3 & C3 & _).
  unfold writeClearEl. rewrite (andThen_ok E3).
  unfold visitMount. unfold andThen at 1. cbn [logPrintf].
  set (w4 := mkWorld _ _ _ _).
  assert (C4 : config w4 = config w) by (rewrite <- C2, <- C3; reflexivity).
  assert (W4 : written w4 = written w3) by reflexivity.
  assert (S4 : MountPointSelector w4 = MountPointSelector w)
    by (apply config_selector, C4).
  unfold andThen at 1. unfold writeSelectMountPoint. rewrite S4.
  destruct (@write_fits _
              (SelectMountPoint (MountPointSelector w) (Data el)) w4
              (fits_config C4 Hmount))
    as (w5 & E5 & W5 & C5 & _).
  rewrite E5. exists w5. split; [reflexivity|]. split; [|congruence].
  now rewrite W5, W4, W3, W2, <- app_assoc.
Qed.

(** C5.  For a root whose lowered tag is not ["html"], what [Render]
    writes is always a prefix of [ClearElement], [SelectMountPoint] with
    the renderer's selector and the root's tag, then the attribute,
    listener and child instructions of the root at position id ["0"], and
    no line of [visitHead] or [visitBody] is logged.  When the JS
    environment is there, the root is an element and the first two
    instructions fit the buffer, the stream does begin with
    [ClearElement] and [SelectMountPoint]; when moreover every node
    reached has a known type and every instruction of the root fits,
    [Render] returns nil and has written all of them. *)
Theorem Render_mounts_other_roots (bo : BuildOut) (el : VGNode)
    (w : World) :
  Doc bo = Some el ->
  ToLower (Data el) <> "html" ->
  exists d l,
    written (snd (Render (Some bo) w)) = written w ++ d /\
    (exists t',
        ClearElement ::
        SelectMountPoint (MountPointSelector w) (Data el) ::
        elementEtcInstrs el (list_byte_of_string "0") = d ++ t') /\
    (fst (Render (Some bo) w) = None ->
     d = ClearElement ::
         SelectMountPoint (MountPointSelector w) (Data el) ::
         elementEtcInstrs el (list_byte_of_string "0")) /\
    logOutput (snd (Render (Some bo) w)) = logOutput w ++ l /\
    Forall notStructural l /\
    (jsGlobalTruthy w = true ->
     Type_ el = ElementNode ->
     fits w ClearElement ->
     fits w (SelectMountPoint (MountPointSelector w) (Data el)) ->
     exists rest,
       d = ClearElement ::
           SelectMountPoint (MountPointSelector w) (Data el) :: rest /\
       (elementKnown typesKnown el = true ->
        Forall (fits w) (elementEtcInstrs el (list_byte_of_string "0")) ->
        fst (Render (Some bo) w) = None /\
        rest = elementEtcInstrs el (list_byte_of_string "0"))).
Proof.
  intros Hdoc Hhtml. pose proof Hhtml as Hneq.
  apply String.eqb_neq in Hhtml.
  destruct (@tracesAt_Render _ notStructural bo el w Hdoc (fun _ h => h))
    as (d & l & Hw & _ & Hl & Hn & Hp & Hd).
  { rewrite Hhtml. discriminate. }
  unfold visitFirstInstrs in *. rewrite Hhtml in *.
  exists d, l. repeat (split; [assumption|]).
  intros Hjs Hty Hclear Hmount.
  assert (Hbegin : exists rest,
             d = ClearElement ::
                 SelectMountPoint (MountPointSelector w) (Data el) :: rest).
  { revert Hw. unfold Render. rewrite Hjs, Hdoc, Hty.
    cbn [negb VGNodeType_eqb].
    unfold andThen at 1 2. cbn [logPrintf].
    set (w2 := mkWorld _ _ _ _).
    assert (C2 : config w2 = config w) by reflexivity.
    assert (W2 : written w2 = written w) by reflexivity.
    assert (S2 : MountPointSelector w2 = MountPointSelector w)
      by reflexivity.
    destruct (@visitFirst_mount_run bo el (list_byte_of_string "0") w2
                Hty Hhtml (fits_config C2 Hclear))
      as (w3 & E3 & W3 & C3); [rewrite S2; now apply (fits_config C2)|].
    unfold andThen. rewrite E3.
    destruct (traces_visitSyncElementEtc bo el (list_byte_of_string "0") w3)
      as (r & _ & Wr & _).
    assert (Wend : forall x,
               written (snd (flush x)) = written x).
    { intros x. destruct (traces_flush (fun _ => True) x)
        as (d0 & _ & Wx & _ & _ & _ & [t0 Ht0] & _).
      destruct d0; [now rewrite app_nil_r in Wx | discriminate]. }
    destruct (visitSyncElementEtc bo el (list_byte_of_string "0") w3)
      as [[e|] w4]; cbn [fst snd] in *; rewrite ?Wend;
      rewrite Wr, W3, W2, S2, <- !app_assoc; intros Hw;
      apply app_inv_head in Hw; exists r; now rewrite <- Hw. }
  destruct Hbegin as [rest ->]. exists rest. split; [reflexivity|].
  intros Hk Hfit.
  assert (Hnil : fst (Render (Some bo) w) = None).
  { apply (@Render_succeeds _ bo el w); auto. }
  split; [exact Hnil|].
  specialize (Hd Hnil). now injection Hd.
Qed.

(** C8.  When the JS environment is not there, [Render] returns the one
    error of the environment check and leaves the world as it was,
    whatever [bo] is: the check comes before any look at the input, any
    traversal and any write. *)
Theorem Render_without_js (bo : option BuildOut) (w : World) :
  jsGlobalTruthy w = false ->
  Render bo w = (Some (Errorf "js environment not available" []), w).
Proof. intros Hjs. unfold Render. now rewrite Hjs. Qed.

(** C9.  Two passes over the same [BuildOut], the second started where
    the first ended, that both return nil write the same instructions,
    position ids included. *)
Theorem Render_twice_same_instructions (bo : option BuildOut)
    (w0 w1 w2 : World) :
  Render bo w0 = (None, w1) ->
  Render bo w1 = (None, w2) ->
  exists d,
    written w1 = written w0 ++ d /\ written w2 = written w1 ++ d.
Proof.
  intros E1 E2.
  destruct (Render_ok _ _ E1) as (b & el & -> & Hdoc & Hw1 & Hc1).
  destruct (Render_ok _ _ E2) as (b' & el' & Eb & Hdoc' & Hw2 & _).
  injection Eb as <-. rewrite Hdoc in Hdoc'. injection Hdoc' as <-.
  rewrite (config_selector Hc1) in Hw2. eauto.
Qed.

(** C10.  [visitSyncNode] on a node that is not an element: a text node
    gets exactly one [SetText] and a comment node exactly one
    [SetComment], with the node's data, when that instruction fits; a
    node of any other type gets no instruction and the error
    ["unknown node type"].  Nothing but the line ["visitSyncNode"] is
    logged. *)
Theorem visitSyncNode_not_element (bo : BuildOut) (n : VGNode)
    (positionID : PositionID) (w : World) :
  Type_ n <> ElementNode ->
  Forall (fits w)
    match Type_ n with
    | TextNode => [SetText (Data n)]
    | CommentNode => [SetComment (Data n)]
    | _ => []
    end ->
  fst (visitSyncNode bo n positionID w) =
  match Type_ n with
  | TextNode | CommentNode => None
  | t => Some (Errorf "unknown node type %v" [ArgNodeType t])
  end /\
  written (snd (visitSyncNode bo n positionID w)) =
  written w ++
  match Type_ n with
  | TextNode => [SetText (Data n)]
  | CommentNode => [SetComment (Data n)]
  | _ => []
  end /\
  logOutput (snd (visitSyncNode bo n positionID w)) =
  logOutput w ++ [Printf "visitSyncNode" []] /\
  (Type_ n <> TextNode -> Type_ n <> CommentNode ->
   forall parentID k,
     syncSiblings (visitSyncNode bo) parentID n k w =
     visitSyncNode bo n (childPositionID parentID k) w).
Proof.
  intros Hty Hfit.
  assert (Hloop :
            Type_ n <> TextNode -> Type_ n <> CommentNode ->
            forall parentID k,
              syncSiblings (visitSyncNode bo) parentID n k w =
              visitSyncNode bo n (childPositionID parentID k) w).
  { intros Ht Hc parentID k. rewrite syncSiblings_eq.
    unfold andThen at 1. rewrite visitSyncNode_eq.
    unfold andThen at 1 3. cbn [logPrintf].
    destruct (Type_ n); [now contradiction Hty | now contradiction Ht
                        | now contradiction Hc | reflexivity]. }
  rewrite visitSyncNode_eq.
  destruct (Type_ n); [now contradiction Hty | | |];
    unfold andThen; cbn [logPrintf];
    set (w1 := mkWorld _ _ _ _);
    assert (Hc : config w1 = config w) by reflexivity;
    assert (Hw : written w1 = written w) by reflexivity.
  - apply Forall_inv in Hfit.
    destruct (@write_fits _ (SetText (Data n)) w1)
      as (w2 & E & Hw2 & _ & Hl2); [now apply (fits_config Hc)|].
    unfold writeSetText. rewrite E. cbn [fst snd].
    rewrite Hw2, Hl2, Hw. auto.
  - apply Forall_inv in Hfit.
    destruct (@write_fits _ (SetComment (Data n)) w1)
      as (w2 & E & Hw2 & _ & Hl2); [now apply (fits_config Hc)|].
    unfold writeSetComment. rewrite E. cbn [fst snd].
    rewrite Hw2, Hl2, Hw. auto.
  - cbn [fail fst snd]. rewrite Hw, app_nil_r. auto.
Qed.
End Claims.

(** ** The structural root and the stubs *)

Lemma logPrintf_run (format : string) (args : list fmtArg) (w : World) :
  exists w',
    logPrintf format args w = (None, w') /\
    instructionList_ w' = instructionList_ w /\
    config w' = config w /\
    logOutput w' = logOutput w ++ [Printf format args].
Proof. eexists. split; [reflexivity|]. now repeat split. Qed.

Lemma written_same_list (w w' : World) :
  instructionList_ w' = instructionList_ w -> written w' = written w.
Proof. unfold written. now intros ->. Qed.

Section Structural.
Context `{InstructionCodec}.

(** A write that returned [nil] left its instruction last in the
    buffer. *)
Lemma write_ok_pending (i : instruction) (w w' : World) :
  write i w = (None, w') ->
  exists ps, pending (instructionList_ w') = ps ++ [i].
Proof.
  unfold write, writeList.
  destruct (capacity _ <? encodedLen i); [discriminate|].
  destruct (_ <? encodedLen i); intros E; injection E as <-; simpl.
  - now exists [].
  - now exists (pending (instructionList_ w)).
Qed.

(** The loop over the children of an [html] root: the children of [pre]
    are dispatched in order, and the loop ends there or stops at the
    first child of [rest]. *)
Lemma htmlChildren_run (bo : BuildOut) (positionID : PositionID)
    (pre rest : list VGNode) :
  Forall (fun c => isHead c || isBody c = true) pre ->
  match rest with
  | [] => True
  | c :: _ => isHead c || isBody c = false
  end ->
  forall w,
  exists w',
    forRange (pre ++ rest) (visitHtmlChild bo positionID) w =
    (htmlResult rest, w') /\
    instructionList_ w' = instructionList_ w /\
    config w' = config w /\
    logOutput w' = logOutput w ++ map structuralLog pre.
Proof.
  intros Hpre Hrest. induction Hpre as [|c pre Hc _ IH]; intros w.
  - exists w. simpl. rewrite app_nil_r. repeat split.
    destruct rest as [|c rest]; [reflexivity|]. simpl.
    apply orb_false_elim in Hrest as [Hh Hb].
    unfold visitHtmlChild. unfold isHead, isBody in *.
    now rewrite Hh, Hb.
  - simpl. unfold visitHtmlChild at 1, structuralLog at 1.
    unfold isHead, isBody in *.
    destruct (ToLower (Data c) =? "head")%string.
    + destruct (logPrintf_run "TODO: visitHead" [] w)
        as (w1 & E1 & Hi1 & Hc1 & Hl1).
      destruct (IH w1) as (w2 & E2 & Hi2 & Hc2 & Hl2).
      exists w2. unfold visitHead. rewrite (andThen_ok E1).
      repeat split; try congruence.
      now rewrite Hl2, Hl1, <- app_assoc.
    + simpl in Hc. rewrite Hc.
      destruct (logPrintf_run "TODO: visitBody" [] w)
        as (w1 & E1 & Hi1 & Hc1 & Hl1).
      destruct (IH w1) as (w2 & E2 & Hi2 & Hc2 & Hl2).
      exists w2. unfold visitBody. rewrite (andThen_ok E1).
      repeat split; try congruence.
      now rewrite Hl2, Hl1, <- app_assoc.
Qed.

Lemma visitFirst_html_run (bo : BuildOut) (n : VGNode)
    (positionID : PositionID) (pre rest : list VGNode) (w : World) :
  Type_ n = ElementNode ->
  ToLower (Data n) = "html" ->
  fits w ClearElement ->
  children n = pre ++ rest ->
  Forall (fun c => isHead c || isBody c = true) pre ->
  match rest with
  | [] => True
  | c :: _ => isHead c || isBody c = false
  end ->
  exists w',
    visitFirst bo n positionID w = (htmlResult rest, w') /\
    written w' = written w ++ [ClearElement] /\
    config w' = config w /\
    logOutput w' = logOutput w ++ visitFirstLog ++ map structuralLog pre /\
    exists ps, pending (instructionList_ w') = ps ++ [ClearElement].
Proof.
  intros Hty Hhtml Hfit Hcs Hpre Hrest. unfold visitFirst.
  match goal with
  | |- context [logPrintf ?f ?a ;; logPrintf _ _ ;; _] =>
      destruct (logPrintf_run f a w) as (w1 & E1 & Hi1 & Hc1 & Hl1)
  end.
  destruct (logPrintf_run "JSRenderer.visitFirst" [] w1)
    as (w2 & E2 & Hi2 & Hc2 & Hl2).
  rewrite (andThen_ok E1), (andThen_ok E2), Hty, Hhtml, Hcs. simpl.
  destruct (@write_fits _ ClearElement w2)
    as (w3 & E3 & Hw3 & Hc3 & Hl3);
    [apply (@fits_config _ w); [congruence | exact Hfit]|].
  destruct (write_ok_pending _ _ E3) as [ps Hps].
  destruct (@htmlChildren_run bo positionID pre rest Hpre Hrest w3)
    as (w4 & E4 & Hi4 & Hc4 & Hl4).
  exists w4. unfold writeClearEl. rewrite (andThen_ok E3).
  split; [exact E4|]. repeat split.
  - rewrite (written_same_list _ _ Hi4), Hw3.
    now rewrite (written_same_list _ _ Hi2), (written_same_list _ _ Hi1).
  - congruence.
  - rewrite Hl4, Hl3, Hl2, Hl1. unfold visitFirstLog.
    now rewrite <- !app_assoc.
  - exists ps. now rewrite Hi4.
Qed.

(** C6.  For an element root whose lowered tag is ["html"], with room
    for [ClearElement]: [visitFirst] walks the children in order, sends
    each one whose lowered tag is ["head"] to [visitHead] and each one
    whose lowered tag is ["body"] to [visitBody] (their log lines follow
    those of [visitFirst], in order), and at the first child with
    another tag returns the error ["unexpected tag inside html"] without
    dispatching any later child.  [Render] returns the same result; on
    the error it does not flush, so the [ClearElement] it wrote stays in
    the buffer. *)
Theorem visitFirst_html_children (bo : BuildOut) (n : VGNode)
    (positionID : PositionID) (pre rest : list VGNode) (w : World) :
  Type_ n = ElementNode ->
  ToLower (Data n) = "html" ->
  fits w ClearElement ->
  children n = pre ++ rest ->
  Forall (fun c => isHead c || isBody c = true) pre ->
  match rest with
  | [] => True
  | c :: _ => isHead c || isBody c = false
  end ->
  (exists w',
      visitFirst bo n positionID w =
      (match rest with
       | [] => None
       | c :: _ =>
           Some (Errorf "unexpected tag inside html %q (VGNode=%#v)"
                        [ArgString (Data c); ArgNode c])
       end, w') /\
      written w' = written w ++ [ClearElement] /\
      logOutput w' =
      logOutput w ++ visitFirstLog ++ map structuralLog pre) /\
  (jsGlobalTruthy w = true -> Doc bo = Some n ->
   exists w',
     Render (Some bo) w =
     (match rest with
      | [] => None
      | c :: _ =>
          Some (Errorf "unexpected tag inside html %q (VGNode=%#v)"
                       [ArgString (Data c); ArgNode c])
      end, w') /\
     written w' = written w ++ [ClearElement] /\
     logOutput w' =
     logOutput w ++
     [Printf "BuildOut: %#v" [ArgBuildOut bo];
      Printf "el: %#v" [ArgNode n]] ++
     visitFirstLog ++ map structuralLog pre /\
     match rest with
     | [] => pending (instructionList_ w') = []
     | _ :: _ =>
         exists ps, pending (instructionList_ w') = ps ++ [ClearElement]
     end).
Proof.
  intros Hty Hhtml Hfit Hcs Hpre Hrest. split.
  - destruct (@visitFirst_html_run bo n positionID pre rest w Hty Hhtml
                Hfit Hcs Hpre Hrest) as (w' & E & Hw & _ & Hl & _).
    exists w'. now repeat split.
  - intros Hjs Hdoc. unfold Render. rewrite Hjs, Hdoc, Hty. simpl.
    destruct (logPrintf_run "BuildOut: %#v" [ArgBuildOut bo] w)
      as (w1 & E1 & Hi1 & Hc1 & Hl1).
    destruct (logPrintf_run "el: %#v" [ArgNode n] w1)
      as (w2 & E2 & Hi2 & Hc2 & Hl2).
    rewrite (andThen_ok E1), (andThen_ok E2).
    destruct (@visitFirst_html_run bo n (list_byte_of_string "0")
                pre rest w2 Hty Hhtml)
      as (w3 & E3 & Hw3 & Hc3 & Hl3 & ps & Hps); auto.
    { apply (@fits_config _ w); [congruence | exact Hfit]. }
    assert (Hw : written w3 = written w ++ [ClearElement]).
    { now rewrite Hw3, (written_same_list _ _ Hi2),
        (written_same_list _ _ Hi1). }
    assert (Hl : logOutput w3 =
                 logOutput w ++
                 [Printf "BuildOut: %#v" [ArgBuildOut bo];
                  Printf "el: %#v" [ArgNode n]] ++
                 visitFirstLog ++ map structuralLog pre).
    { rewrite Hl3, Hl2, Hl1. now rewrite <- !app_assoc. }
    destruct rest as [|c rest]; simpl in E3.
    + rewrite (andThen_ok E3). eexists. split; [reflexivity|].
      unfold flush; simpl. repeat split; auto.
      rewrite <- Hw. unfold written; simpl.
      rewrite concat_app; simpl. now rewrite !app_nil_r.
    + rewrite (andThen_err E3). exists w3. repeat split; eauto.
Qed.

(** C7, as the code has it.  [handleDOMEvent] panics with
    ["handleDOMEvent not yet implemented"] and changes nothing.
    [visitHead] and [visitBody] do not fail: each returns nil, leaves
    the instruction list as it was and logs one line, ["TODO: visitHead"]
    or ["TODO: visitBody"]. *)
Theorem stubs_panic_or_log (bo : BuildOut) (n : VGNode)
    (positionID : PositionID) (w : World) :
  handleDOMEvent w =
  (Panicked (Errorf "handleDOMEvent not yet implemented" []), w) /\
  (fst (visitHead bo n positionID w) = None /\
   instructionList_ (snd (visitHead bo n positionID w)) =
   instructionList_ w /\
   logOutput (snd (visitHead bo n positionID w)) =
   logOutput w ++ [Printf "TODO: visitHead" []]) /\
  (fst (visitBody bo n positionID w) = None /\
   instructionList_ (snd (visitBody bo n positionID w)) =
   instructionList_ w /\
   logOutput (snd (visitBody bo n positionID w)) =
   logOutput w ++ [Printf "TODO: visitBody" []]).
Proof. now repeat split. Qed.
End Structural.

(** C7 as stated fails: on the head of the sample document [visitHead]
    returns nil, and so does [visitBody] on its body; neither returns an
    error. *)
Lemma stubs_return_nil :
  ~ (fst (visitHead (sampleBuildOut sampleHtml)
                    (leaf ElementNode "head" None)
                    (list_byte_of_string "0") sampleWorld) <> None \/
     fst (visitBody (sampleBuildOut sampleHtml)
                    (leaf ElementNode "Body" None)
                    (list_byte_of_string "0") sampleWorld) <> None).
Proof. intros [Hh|Hb]; [apply Hh | apply Hb]; reflexivity. Qed.

(** * Further properties of the render pass *)

Unset Implicit Arguments.

Lemma to_int_not_nil (z : Z) :
  Z.to_int z <> Decimal.Pos Decimal.Nil /\ Z.to_int z <> Decimal.Neg Decimal.Nil.
Proof.
  destruct z as [|p|p]; simpl; split; try discriminate;
    intros E; injection E as E;
    now apply DecimalPos.Unsigned.to_uint_nonnil in E.
Qed.

Lemma sprintfD_inj (a b : Z) : sprintfD a = sprintfD b -> a = b.
Proof.
  unfold sprintfD. intros E. apply DecimalZ.to_int_inj.
  destruct (to_int_not_nil a) as [Ha1 Ha2].
  destruct (to_int_not_nil b) as [Hb1 Hb2].
  pose proof (NilZero.isi _ Ha1 Ha2) as Ia.
  pose proof (NilZero.isi _ Hb1 Hb2) as Ib.
  rewrite E in Ia. rewrite Ia in Ib. now injection Ib.
Qed.

Lemma uint_digits (d : Decimal.uint) :
  forallb isDigit (list_byte_of_string (NilEmpty.string_of_uint d)) = true.
Proof. induction d; simpl; auto. Qed.

Lemma sprintfD_digits (k : Z) :
  (0 <= k)%Z -> forallb isDigit (list_byte_of_string (sprintfD k)) = true.
Proof.
  unfold sprintfD. destruct k as [|p|p]; [reflexivity | | lia]. intros _.
  simpl. unfold NilZero.string_of_uint.
  destruct (Pos.to_uint p) eqn:E; try (rewrite <- E; apply uint_digits).
  reflexivity.
Qed.

Lemma fanoutBounded_eq (n : VGNode) :
  fanoutBounded n =
  (Z.of_nat (List.length (children n)) <? 2 ^ 63)%Z &&
  match FirstChild n with
  | Some first => siblingsKnown fanoutBounded first
  | None => true
  end.
Proof. destruct n; reflexivity. Qed.

Lemma childPositionID_eq (q : PositionID) (k : Z) :
  childPositionID q k = q ++ x5f :: list_byte_of_string (sprintfD k).
Proof. reflexivity. Qed.

Lemma list_byte_of_string_inj (a b : string) :
  list_byte_of_string a = list_byte_of_string b -> a = b.
Proof.
  intros E. rewrite <- (string_of_list_byte_of_string a).
  rewrite <- (string_of_list_byte_of_string b). now rewrite E.
Qed.

Lemma digits_tail_split (a b r1 r2 : list byte) :
  forallb isDigit a = true -> forallb isDigit b = true ->
  segTail r1 -> segTail r2 ->
  a ++ r1 = b ++ r2 -> a = b.
Proof.
  revert b. induction a as [|x a IH]; intros [|y b] Ha Hb H1 H2 E;
    simpl in *.
  - reflexivity.
  - destruct H1 as [->|[r' ->]]; [discriminate|].
    injection E as <- _. discriminate.
  - destruct H2 as [->|[r' ->]]; [discriminate|].
    injection E as -> _. discriminate.
  - apply andb_prop in Ha as [_ Ha]. apply andb_prop in Hb as [_ Hb].
    injection E as -> E. f_equal. eauto.
Qed.

Lemma childPositionID_split (q : PositionID) (i j : Z)
    (r1 r2 : list byte) :
  (0 <= i)%Z -> (0 <= j)%Z -> segTail r1 -> segTail r2 ->
  childPositionID q i ++ r1 = childPositionID q j ++ r2 -> i = j.
Proof.
  intros Hi Hj H1 H2 E. rewrite !childPositionID_eq in E.
  rewrite <- !app_assoc in E. apply app_inv_head in E.
  simpl in E. injection E as E.
  apply sprintfD_inj, list_byte_of_string_inj.
  apply (digits_tail_split _ _ r1 r2); auto using sprintfD_digits.
Qed.

Lemma VGNode_children_ind (P : VGNode -> Prop) :
  (forall n, (forall c, In c (children n) -> P c) -> P n) ->
  forall n, P n.
Proof.
  intros step.
  assert (H : forall n c, In c (siblingsFrom n) -> P c).
  { induction n as [n IHc IHs] using VGNode_pointer_ind. intros c.
    rewrite siblingsFrom_eq. intros [<-|Hin].
    - apply step. unfold children.
      destruct (FirstChild n) as [first|]; [|contradiction].
      intros c. now apply (IHc first eq_refl).
    - destruct (NextSibling n) as [next|]; [|contradiction].
      now apply (IHs next eq_refl). }
  intros n. apply (H n). rewrite siblingsFrom_eq. now left.
Qed.

Lemma siblingsKnown_forall (f : VGNode -> bool) (c : VGNode) :
  siblingsKnown f c = true ->
  forall x, In x (siblingsFrom c) -> f x = true.
Proof.
  induction c as [c _ IHs] using VGNode_pointer_ind.
  rewrite siblingsKnown_eq, siblingsFrom_eq. intros Hk x.
  apply andb_prop in Hk as [Hc Hnext]. intros [<-|Hin]; [exact Hc|].
  destruct (NextSibling c) as [next|]; [|contradiction].
  now apply (IHs next eq_refl).
Qed.

Lemma fanoutBounded_children (n : VGNode) :
  fanoutBounded n = true ->
  (Z.of_nat (List.length (children n)) < 2 ^ 63)%Z /\
  forall c, In c (children n) -> fanoutBounded c = true.
Proof.
  rewrite fanoutBounded_eq. intros Hb.
  apply andb_prop in Hb as [Hlen Hcs]. split; [now apply Z.ltb_lt|].
  unfold children. destruct (FirstChild n) as [first|]; [|contradiction].
  now apply siblingsKnown_forall.
Qed.

Lemma positionIDs_app (a b : list instruction) :
  positionIDs (a ++ b) = positionIDs a ++ positionIDs b.
Proof. apply flat_map_app. Qed.

Lemma positionIDs_flat_map (A : Type) (g : A -> list instruction)
    (l : list A) :
  positionIDs (flat_map g l) = flat_map (fun x => positionIDs (g x)) l.
Proof.
  induction l as [|x l IH]; simpl; [reflexivity|].
  now rewrite positionIDs_app, IH.
Qed.

Lemma positionIDs_map_nil (A : Type) (g : A -> instruction) (l : list A) :
  (forall x, positionIDOf (g x) = []) -> positionIDs (map g l) = [].
Proof.
  intros Hg. induction l as [|x l IH]; simpl; [reflexivity|].
  now rewrite Hg.
Qed.

Lemma positionIDs_elementPrefix (n : VGNode) (q : PositionID) :
  positionIDs (elementPrefix n q) = [q].
Proof.
  unfold elementPrefix, attrInstrs, listenerInstrs.
  rewrite !positionIDs_app, !positionIDs_map_nil by reflexivity.
  reflexivity.
Qed.

Lemma positionIDs_nodeInstrs (n : VGNode) (q : PositionID) :
  positionIDs (nodeInstrs n q) =
  match Type_ n with
  | ElementNode => positionIDs (elementEtcInstrs n q)
  | _ => []
  end.
Proof. rewrite nodeInstrs_eq. now destruct (Type_ n). Qed.

(** The position ids an element contributes, with the children
    numbered. *)
Lemma positionIDs_elementEtcInstrs (n : VGNode) (q : PositionID) :
  (Z.of_nat (List.length (children n)) < 2 ^ 63)%Z ->
  positionIDs (elementEtcInstrs n q) =
  q :: match InnerHTML n with
       | Some _ => []
       | None =>
           flat_map
             (fun ic => positionIDs
                          (nodeInstrs (snd ic)
                             (childPositionID q (Z.of_nat (fst ic)))))
             (numbered (children n))
       end.
Proof.
  intros Hlen. unfold elementEtcInstrs.
  rewrite positionIDs_app, positionIDs_elementPrefix.
  change ([q] ++ ?t) with (q :: t). f_equal.
  destruct (InnerHTML n) as [html|] eqn:Hraw.
  - unfold elementRest. now rewrite Hraw.
  - rewrite (@elementRest_spec n q Hraw Hlen). unfold specChildrenInstrs.
    destruct (children n) as [|c cs] eqn:Hcs; [reflexivity|].
    change (positionIDs (MoveToFirstChild :: ?t)) with (positionIDs t).
    rewrite positionIDs_app, positionIDs_flat_map.
    change (positionIDs [MoveToParent]) with (@nil PositionID).
    rewrite app_nil_r. apply flat_map_ext. intros [i x].
    rewrite positionIDs_app.
    change (positionIDs [MoveToNextSibling]) with (@nil PositionID).
    now rewrite app_nil_r.
Qed.

Lemma map_fst_combine_seq (A : Type) (l : list A) (s : nat) :
  map fst (combine (seq s (List.length l)) l) = seq s (List.length l).
Proof.
  revert s. induction l as [|x l IH]; intros s; simpl; [reflexivity|].
  now rewrite IH.
Qed.

Lemma numbered_in (A : Type) (l : list A) (i : nat) (x : A) :
  In (i, x) (numbered l) -> In x l /\ (0 <= Z.of_nat i)%Z.
Proof.
  unfold numbered. intros Hin. split; [|lia].
  now apply in_combine_r in Hin.
Qed.

Lemma NoDup_flat_map_keys (A B K : Type) (key : A -> K)
    (f : A -> list B) (l : list A) :
  NoDup (map key l) ->
  (forall a, In a l -> NoDup (f a)) ->
  (forall a1 a2 x, In a1 l -> In a2 l -> In x (f a1) -> In x (f a2) ->
                   key a1 = key a2) ->
  NoDup (flat_map f l).
Proof.
  induction l as [|a l IH]; simpl; intros Hk Hf Hd; [constructor|].
  inversion Hk as [|? ? Hnotin Hk']; subst.
  apply NoDup_app; auto.
  - apply IH; auto. intros a1 a2 x H1 H2. apply Hd; auto.
  - intros x Hx Hx'. apply in_flat_map in Hx' as (a2 & Ha2 & Hx2).
    apply Hnotin. rewrite (Hd a a2 x); auto. now apply in_map.
Qed.

(** Below an element with position id [q], every position id is [q]
    followed by nothing or by ["_"] and more, and no two are equal. *)
Lemma positionIDs_distinct (n : VGNode) :
  fanoutBounded n = true ->
  forall q,
    NoDup (positionIDs (elementEtcInstrs n q)) /\
    forall id, In id (positionIDs (elementEtcInstrs n q)) ->
               exists r, id = q ++ r /\ segTail r.
Proof.
  induction n as [n IH] using VGNode_children_ind. intros Hb q.
  apply fanoutBounded_children in Hb as [Hlen Hcs].
  rewrite (@positionIDs_elementEtcInstrs n q Hlen).
  assert (Hchild : forall i c,
             In (i, c) (numbered (children n)) ->
             NoDup (positionIDs
                      (nodeInstrs c (childPositionID q (Z.of_nat i)))) /\
             forall id,
               In id (positionIDs
                        (nodeInstrs c (childPositionID q (Z.of_nat i)))) ->
               exists r, id = childPositionID q (Z.of_nat i) ++ r /\
                         segTail r).
  { intros i c Hin. apply numbered_in in Hin as [Hc _].
    rewrite positionIDs_nodeInstrs. destruct (Type_ c);
      try (split; [constructor | intros id []]).
    apply (IH c Hc), Hcs, Hc. }
  assert (Hext : forall id,
             In id (flat_map
                      (fun ic => positionIDs
                                   (nodeInstrs (snd ic)
                                      (childPositionID q
                                         (Z.of_nat (fst ic)))))
                      (numbered (children n))) ->
             exists r', id = q ++ x5f :: r').
  { intros id Hin. apply in_flat_map in Hin as ([i c] & Hic & Hid).
    destruct (proj2 (Hchild i c Hic) id Hid) as (r & -> & _).
    rewrite childPositionID_eq, <- app_assoc. simpl. eauto. }
  destruct (InnerHTML n) as [html|].
  { split; [repeat constructor; intros [] |].
    intros id [<-|[]]. exists []. rewrite app_nil_r. split; [auto|now left]. }
  split.
  - constructor.
    + intros Hin. destruct (Hext q Hin) as (r' & E).
      rewrite <- (app_nil_r q) in E at 1. now apply app_inv_head in E.
    + apply NoDup_flat_map_keys with (key := fst).
      * unfold numbered. rewrite map_fst_combine_seq. apply seq_NoDup.
      * intros [i c] Hic. now apply Hchild.
      * intros [i1 c1] [i2 c2] x H1 H2 Hx1 Hx2. simpl in *.
        destruct (proj2 (Hchild i1 c1 H1) x Hx1) as (r1 & E1 & Ht1).
        destruct (proj2 (Hchild i2 c2 H2) x Hx2) as (r2 & E2 & Ht2).
        rewrite E1 in E2.
        apply childPositionID_split in E2; auto; lia.
  - intros id [<-|Hin].
    + exists []. rewrite app_nil_r. split; [auto|now left].
    + destruct (Hext id Hin) as (r' & ->). exists (x5f :: r').
      split; [auto|right; eauto].
Qed.

Section ExtraIds.
Context `{InstructionCodec}.

(** X1.  Two children of one parent with different values of [childIndex]
    get different position ids, whatever the two values are; and the
    position id of a child is never that of its parent, which it extends. *)
Theorem childPositionID_siblings_differ (q : PositionID) (i j : Z) :
  i <> j ->
  childPositionID q i <> childPositionID q j /\
  childPositionID q i <> q /\
  firstn (List.length q) (childPositionID q i) = q.
Proof.
  intros Hij. rewrite !childPositionID_eq. repeat split.
  - intros E. apply app_inv_head in E. injection E as E.
    now apply list_byte_of_string_inj, sprintfD_inj in E.
  - intros E. rewrite <- (app_nil_r q) in E at 2.
    now apply app_inv_head in E.
  - rewrite firstn_app, Nat.sub_diag, firstn_all. simpl.
    apply app_nil_r.
Qed.

(** X2.  In one pass no two elements are given the same position id:
    the position ids carried by the [RemoveOtherEventListeners]
    instructions a pass writes, one per element synced, are pairwise
    distinct, whether the pass fails or not, when no node has 2^63
    children or more. *)
Theorem Render_position_ids_distinct (bo : BuildOut) (el : VGNode)
    (w : World) :
  Doc bo = Some el ->
  fanoutBounded el = true ->
  exists d,
    written (snd (Render (Some bo) w)) = written w ++ d /\
    NoDup (positionIDs d) /\
    (fst (Render (Some bo) w) = None ->
     ToLower (Data el) <> "html"%string ->
     positionIDs d =
     positionIDs (elementEtcInstrs el (list_byte_of_string "0"))).
Proof.
  intros Hdoc Hb.
  destruct (@tracesAt_Render _ (fun _ => True) bo el w Hdoc
              (fun _ _ => I) (fun _ _ => I))
    as (d & l & Hw & _ & _ & _ & [t' Hp] & Hd).
  exists d. split; [exact Hw|].
  assert (Hall : NoDup (positionIDs
                          (visitFirstInstrs (MountPointSelector w) el
                             (list_byte_of_string "0")))).
  { unfold visitFirstInstrs.
    destruct (ToLower (Data el) =? "html")%string; [constructor|].
    apply (positionIDs_distinct el Hb). }
  split.
  - rewrite Hp, positionIDs_app in Hall.
    now apply NoDup_app_remove_r in Hall.
  - intros Hnil Hhtml. rewrite (Hd Hnil). unfold visitFirstInstrs.
    apply String.eqb_neq in Hhtml. now rewrite Hhtml.
Qed.

(** X7.  For a root whose lowered tag is ["html"] a pass writes nothing
    or [ClearElement] alone: no attribute, listener or content of the
    root, its head or its body reaches the instruction list. *)
Theorem Render_html_root_only_clears (bo : BuildOut) (el : VGNode)
    (w : World) :
  Doc bo = Some el ->
  ToLower (Data el) = "html"%string ->
  exists d,
    written (snd (Render (Some bo) w)) = written w ++ d /\
    (d = [] \/ d = [ClearElement]).
Proof.
  intros Hdoc Hhtml.
  destruct (@tracesAt_Render _ (fun _ => True) bo el w Hdoc
              (fun _ _ => I) (fun _ _ => I))
    as (d & l & Hw & _ & _ & _ & [t' Hp] & _).
  exists d. split; [exact Hw|].
  unfold visitFirstInstrs in Hp. rewrite Hhtml in Hp. simpl in Hp.
  destruct d as [|i [|i' d]]; [now left | right | ].
  - now injection Hp as <- _.
  - discriminate.
Qed.
End ExtraIds.

Lemma cursorAfter_app (a b : list instruction) (d : nat) :
  cursorAfter d (a ++ b) =
  match cursorAfter d a with
  | Some e => cursorAfter e b
  | None => None
  end.
Proof.
  revert d. induction a as [|i a IH]; intros d; [reflexivity|].
  destruct i; simpl; auto; destruct d; auto.
Qed.

Lemma cursorAfter_no_move (t : list instruction) (d : nat) :
  forallb (fun i => negb (isMove i)) t = true -> cursorAfter d t = Some d.
Proof.
  induction t as [|i t IH]; [reflexivity|]. simpl. intros Hm.
  apply andb_prop in Hm as [Hi Ht]. destruct i; simpl in *; auto;
    discriminate.
Qed.

Lemma cursorAfter_map_no_move (A : Type) (g : A -> instruction)
    (l : list A) (d : nat) :
  (forall x, isMove (g x) = false) -> cursorAfter d (map g l) = Some d.
Proof.
  intros Hg. induction l as [|x l IH]; [reflexivity|]. simpl.
  specialize (Hg x). destruct (g x); simpl in *; auto; discriminate.
Qed.

Lemma cursorAfter_elementPrefix (n : VGNode) (q : PositionID) (d : nat) :
  cursorAfter d (elementPrefix n q) = Some d.
Proof.
  unfold elementPrefix, attrInstrs, listenerInstrs.
  rewrite cursorAfter_app, cursorAfter_map_no_move by reflexivity.
  change (cursorAfter d ([RemoveOtherAttrs] ++ ?t)) with (cursorAfter d t).
  rewrite cursorAfter_app, cursorAfter_map_no_move by reflexivity.
  reflexivity.
Qed.

Lemma cursorAfter_prefix (a b : list instruction) (d : nat) :
  cursorAfter d (a ++ b) <> None -> cursorAfter d a <> None.
Proof. rewrite cursorAfter_app. now destruct (cursorAfter d a). Qed.

(** The instructions of a node bring the cursor back to where it was, and
    those of a chain of siblings keep it one level down. *)
Lemma cursorAfter_nodeInstrs (n : VGNode) :
  (forall q d, cursorAfter d (nodeInstrs n q) = Some d) /\
  (forall q k d,
      cursorAfter (S d) (siblingsInstrs nodeInstrs q n k) = Some (S d)).
Proof.
  induction n as [n IHc IHs] using VGNode_pointer_ind.
  assert (Hnode : forall q d, cursorAfter d (nodeInstrs n q) = Some d).
  { intros q d. rewrite nodeInstrs_eq.
    destruct (Type_ n); try reflexivity.
    change (cursorAfter d (SetElement (Data n) :: ?t))
      with (cursorAfter d t).
    unfold elementEtcInstrs.
    rewrite cursorAfter_app, cursorAfter_elementPrefix.
    unfold elementRest. destruct (InnerHTML n); [reflexivity|].
    destruct (FirstChild n) as [first|]; [|reflexivity].
    change (cursorAfter d (MoveToFirstChild :: ?t))
      with (cursorAfter (S d) t).
    rewrite cursorAfter_app, (proj2 (IHc first eq_refl)). reflexivity. }
  split; [exact Hnode|].
  intros q k d. rewrite siblingsInstrs_eq, cursorAfter_app, Hnode.
  change (cursorAfter (S d) (MoveToNextSibling :: ?t))
    with (cursorAfter (S d) t).
  destruct (NextSibling n) as [next|]; [|reflexivity].
  apply (proj2 (IHs next eq_refl)).
Qed.

Lemma cursorAfter_elementEtcInstrs (n : VGNode) (q : PositionID)
    (d : nat) :
  cursorAfter d (elementEtcInstrs n q) = Some d.
Proof.
  unfold elementEtcInstrs.
  rewrite cursorAfter_app, cursorAfter_elementPrefix.
  unfold elementRest. destruct (InnerHTML n); [reflexivity|].
  destruct (FirstChild n) as [first|]; [|reflexivity].
  change (cursorAfter d (MoveToFirstChild :: ?t))
    with (cursorAfter (S d) t).
  rewrite cursorAfter_app, (proj2 (cursorAfter_nodeInstrs first)).
  reflexivity.
Qed.

Section ExtraCursor.
Context `{InstructionCodec}.

(** X3.  What a pass writes never moves the host cursor to the parent or
    to a sibling of the element the pass started at, also when the pass
    fails half way; when the pass returns nil the moves are balanced and
    the cursor is back on that element. *)
Theorem Render_cursor_stays_below_mount (bo : BuildOut) (el : VGNode)
    (w : World) :
  Doc bo = Some el ->
  exists d,
    written (snd (Render (Some bo) w)) = written w ++ d /\
    cursorAfter 0 d <> None /\
    (fst (Render (Some bo) w) = None -> cursorAfter 0 d = Some 0).
Proof.
  intros Hdoc.
  destruct (@tracesAt_Render _ (fun _ => True) bo el w Hdoc
              (fun _ _ => I) (fun _ _ => I))
    as (d & l & Hw & _ & _ & _ & [t' Hp] & Hd).
  assert (Hall : cursorAfter 0
                   (visitFirstInstrs (MountPointSelector w) el
                      (list_byte_of_string "0")) = Some 0).
  { unfold visitFirstInstrs.
    destruct (ToLower (Data el) =? "html")%string; [reflexivity|].
    change (cursorAfter 0 (ClearElement :: SelectMountPoint ?s ?g :: ?t))
      with (cursorAfter 0 t).
    apply cursorAfter_elementEtcInstrs. }
  exists d. split; [exact Hw|]. split.
  - apply (@cursorAfter_prefix d t'). rewrite <- Hp, Hall. discriminate.
  - intros Hnil. now rewrite (Hd Hnil).
Qed.
End ExtraCursor.

Section ExtraErrors.
Context `{InstructionCodec}.

Lemma failsWith_ret (E : error -> Prop) : failsWith E ret.
Proof. intros w e. discriminate. Qed.

Lemma failsWith_logPrintf (E : error -> Prop) (f : string)
    (a : list fmtArg) :
  failsWith E (logPrintf f a).
Proof. intros w e. discriminate. Qed.

Lemma failsWith_flush (E : error -> Prop) : failsWith E flush.
Proof. intros w e. discriminate. Qed.

Lemma failsWith_fail (E : error -> Prop) (e : error) :
  E e -> failsWith E (fail e).
Proof. intros He w e' [= <-]. exact He. Qed.

Lemma failsWith_write (i : instruction) : failsWith traversalError (write i).
Proof.
  intros w e. destruct (fits_dec w i) as [Hf|Hf].
  - destruct (write_fits Hf) as (w' & -> & _). discriminate.
  - rewrite (write_overflow Hf). intros [= <-]. constructor.
Qed.

Lemma failsWith_andThen (E : error -> Prop) (m k : M) :
  failsWith E m -> failsWith E k -> failsWith E (andThen m k).
Proof.
  intros Hm Hk w e. unfold andThen. specialize (Hm w).
  destruct (m w) as [[e1|] w1]; simpl in *; [intros [= <-]; auto|].
  apply Hk.
Qed.

Lemma failsWith_forRange (E : error -> Prop) (A : Type) (xs : list A)
    (body : A -> M) :
  (forall x, failsWith E (body x)) -> failsWith E (forRange xs body).
Proof.
  intros Hb. induction xs as [|x xs IH]; simpl.
  - apply failsWith_ret.
  - now apply failsWith_andThen.
Qed.

Lemma failsWith_syncElementEtc (v : VGNode -> PositionID -> M)
    (n : VGNode) (q : PositionID) :
  (forall c k, FirstChild n = Some c ->
               failsWith traversalError (syncSiblings v q c k)) ->
  failsWith traversalError (syncElementEtc v n q).
Proof.
  intros Hs. unfold syncElementEtc.
  repeat apply failsWith_andThen;
    try apply failsWith_write;
    try (apply failsWith_forRange; intros; apply failsWith_write).
  - destruct (0 <? _)%nat; [|apply failsWith_ret].
    apply failsWith_forRange; intros; apply failsWith_write.
  - destruct (InnerHTML n); [apply failsWith_write|].
    destruct (FirstChild n) as [first|]; [|apply failsWith_ret].
    repeat apply failsWith_andThen; try apply failsWith_write.
    now apply Hs.
Qed.

Lemma failsWith_visitSyncNode (bo : BuildOut) (n : VGNode) :
  (forall q, failsWith traversalError (visitSyncNode bo n q)) /\
  (forall q k,
      failsWith traversalError (syncSiblings (visitSyncNode bo) q n k)).
Proof.
  induction n as [n IHc IHs] using VGNode_pointer_ind.
  assert (Hnode : forall q, failsWith traversalError (visitSyncNode bo n q)).
  { intros q. rewrite visitSyncNode_eq.
    apply failsWith_andThen; [apply failsWith_logPrintf|].
    destruct (Type_ n) eqn:Hty; try apply failsWith_write.
    - apply failsWith_andThen; [apply failsWith_write|].
      apply failsWith_syncElementEtc. intros c k Hc.
      apply (IHc c Hc).
    - apply failsWith_fail. constructor; discriminate. }
  split; [exact Hnode|].
  intros q k. rewrite syncSiblings_eq.
  repeat apply failsWith_andThen; auto; try apply failsWith_write.
  destruct (NextSibling n) as [next|]; [|apply failsWith_ret].
  apply (IHs next eq_refl).
Qed.

Lemma failsWith_visitFirst (bo : BuildOut) (n : VGNode) (q : PositionID) :
  Type_ n = ElementNode ->
  failsWith traversalError (visitFirst bo n q).
Proof.
  intros Hty. unfold visitFirst. rewrite Hty. simpl negb. cbv iota.
  apply failsWith_andThen; [apply failsWith_logPrintf|].
  apply failsWith_andThen; [apply failsWith_logPrintf|].
  apply failsWith_andThen; [apply failsWith_write|].
  destruct (ToLower (Data n) =? "html")%string.
  - apply failsWith_forRange. intros c. unfold visitHtmlChild.
    destruct (ToLower (Data c) =? "head")%string eqn:Hh;
      [apply failsWith_logPrintf|].
    destruct (ToLower (Data c) =? "body")%string eqn:Hb;
      [apply failsWith_logPrintf|].
    apply failsWith_fail.
    constructor; now apply String.eqb_neq.
  - unfold visitMount.
    apply failsWith_andThen; [apply failsWith_logPrintf|].
    apply failsWith_andThen.
    + intros w e. apply failsWith_write.
    + apply failsWith_syncElementEtc. intros c k _.
      apply failsWith_visitSyncNode.
Qed.

(** Which error [Render] returns in which situation. *)
Lemma Render_error_cases (bo : option BuildOut) (w : World) (e : error) :
  fst (Render bo w) = Some e ->
  (jsGlobalTruthy w = false /\
   e = Errorf "js environment not available" []) \/
  (jsGlobalTruthy w = true /\
   (e = Errorf "BuildOut is nil" [] \/
    e = Errorf "BuildOut.Doc is nil" [] \/
    (exists t, t <> ElementNode /\
               e = Errorf "BuildOut.Doc.Type is (%v), not ElementNode"
                          [ArgNodeType t]) \/
    traversalError e)).
Proof.
  intros He. unfold Render in He.
  destruct (jsGlobalTruthy w); [right; split; [reflexivity|]
                               | left; now injection He as <-].
  destruct bo as [b|]; [|left; now injection He as <-].
  destruct (Doc b) as [el|]; [|right; left; now injection He as <-].
  right; right.
  destruct (Type_ el) eqn:Hty; simpl in He;
    try (left; eexists; split; [|now injection He as <-]; discriminate).
  right. revert He.
  apply failsWith_andThen; [apply failsWith_logPrintf|].
  apply failsWith_andThen; [apply failsWith_logPrintf|].
  apply failsWith_andThen; [|apply failsWith_flush].
  now apply failsWith_visitFirst.
Qed.

(** X4.  The errors of [Render]: one of the four errors of its own
    tests, ["unknown node type"] for a type that is not element, text or
    comment, ["unexpected tag inside html"] for a tag that lowers to
    neither ["head"] nor ["body"], or the overflow of the buffer.  The
    error ["root of component must be element"] of [visitFirst] is never
    returned, and the error of the environment is returned exactly when
    the JS environment is not there. *)
Theorem Render_errors (bo : option BuildOut) (w : World) (e : error) :
  fst (Render bo w) = Some e ->
  renderError e /\
  e <> Errorf "root of component must be element" [] /\
  (e = Errorf "js environment not available" [] <->
   jsGlobalTruthy w = false).
Proof.
  intros He.
  destruct (Render_error_cases bo w e He)
    as [[Hjs ->]|[Hjs [->|[->|[(t & Ht & ->)|Ht]]]]].
  - repeat split; auto; [constructor | discriminate].
  - repeat split; try discriminate; try constructor. congruence.
  - repeat split; try discriminate; try constructor. congruence.
  - repeat split; try discriminate; try (now constructor). congruence.
  - repeat split; try (now constructor);
      try (intros ->; inversion Ht); congruence.
Qed.
End ExtraErrors.

Section ExtraDelivery.
Context `{InstructionCodec}.

Lemma kept_refl (w w' : World) :
  instructionList_ w' = instructionList_ w -> kept w w'.
Proof.
  intros E. exists []. unfold written. rewrite E, !app_nil_r. auto.
Qed.

Lemma kept_trans (w1 w2 w3 : World) : kept w1 w2 -> kept w2 w3 -> kept w1 w3.
Proof.
  intros (d & W & K) (d' & W' & K'). exists (d ++ d').
  split; [now rewrite W', W, app_assoc|].
  destruct K' as [[F' P']|(a & b & -> & Hb & P')].
  - destruct K as [[F P]|(a & b & -> & Hb & P)].
    + left. split; [congruence|]. now rewrite P', P, app_assoc.
    + right. exists a, (b ++ d'). split; [now rewrite app_assoc|].
      split; [now destruct b | now rewrite P', P].
  - right. exists (d ++ a), b. now rewrite app_assoc.
Qed.

Lemma keeps_ret : keeps ret.
Proof. intros w _. now apply kept_refl. Qed.

Lemma keeps_fail (e : error) : keeps (fail e).
Proof. intros w _. now apply kept_refl. Qed.

Lemma keeps_logPrintf (f : string) (a : list fmtArg) :
  keeps (logPrintf f a).
Proof. intros w _. now apply kept_refl. Qed.

Lemma keeps_write (i : instruction) : keeps (write i).
Proof.
  intros w. destruct (write i w) as [[e|] w'] eqn:E; cbn [fst snd].
  - intros Hne. exfalso. apply Hne. revert E. unfold write, writeList.
    destruct (_ <? _); [intros E; now injection E as <- _|].
    destruct (_ <? _); discriminate.
  - intros _. destruct (write_ok_inv i w E) as (_ & W & _).
    exists [i]. split; [exact W|].
    revert E. unfold write, writeList.
    destruct (_ <? _); [discriminate|].
    destruct (_ <? _); intros E; injection E as <-; cbn.
    + right. exists [], [i]. repeat split. discriminate.
    + now left.
Qed.

Lemma keeps_andThen (m k : M) : keeps m -> keeps k -> keeps (andThen m k).
Proof.
  intros Hm Hk w. unfold andThen. specialize (Hm w).
  destruct (m w) as [[e|] w1]; cbn [fst snd] in *; [exact Hm|].
  intros Hne. apply kept_trans with w1; [apply Hm; discriminate|].
  now apply Hk.
Qed.

Lemma keeps_forRange (A : Type) (xs : list A) (body : A -> M) :
  (forall x, keeps (body x)) -> keeps (forRange xs body).
Proof.
  intros Hb. induction xs as [|x xs IH]; simpl.
  - apply keeps_ret.
  - now apply keeps_andThen.
Qed.

Lemma keeps_syncElementEtc (v : VGNode -> PositionID -> M) (n : VGNode)
    (q : PositionID) :
  (forall c k, FirstChild n = Some c -> keeps (syncSiblings v q c k)) ->
  keeps (syncElementEtc v n q).
Proof.
  intros Hs. unfold syncElementEtc. rewrite forRange_guarded.
  apply keeps_andThen;
    [apply keeps_forRange; intros; apply keeps_write|].
  apply keeps_andThen; [apply keeps_write|].
  apply keeps_andThen;
    [apply keeps_forRange; intros; apply keeps_write|].
  apply keeps_andThen; [apply keeps_write|].
  destruct (InnerHTML n); [apply keeps_write|].
  destruct (FirstChild n) as [first|]; [|apply keeps_ret].
  apply keeps_andThen; [apply keeps_write|].
  apply keeps_andThen; [now apply Hs | apply keeps_write].
Qed.

Lemma keeps_visitSyncNode (bo : BuildOut) (n : VGNode) :
  (forall q, keeps (visitSyncNode bo n q)) /\
  (forall q k, keeps (syncSiblings (visitSyncNode bo) q n k)).
Proof.
  induction n as [n IHc IHs] using VGNode_pointer_ind.
  assert (Hnode : forall q, keeps (visitSyncNode bo n q)).
  { intros q. rewrite visitSyncNode_eq.
    apply keeps_andThen; [apply keeps_logPrintf|].
    destruct (Type_ n); try apply keeps_write; [|apply keeps_fail].
    apply keeps_andThen; [apply keeps_write|].
    apply keeps_syncElementEtc. intros c k Hc. apply (IHc c Hc). }
  split; [exact Hnode|].
  intros q k. rewrite syncSiblings_eq.
  apply keeps_andThen; [apply Hnode|].
  apply keeps_andThen; [apply keeps_write|].
  destruct (NextSibling n) as [next|]; [|apply keeps_ret].
  apply (IHs next eq_refl).
Qed.

Lemma keeps_visitFirst (bo : BuildOut) (n : VGNode) (q : PositionID) :
  keeps (visitFirst bo n q).
Proof.
  unfold visitFirst.
  apply keeps_andThen; [apply keeps_logPrintf|].
  apply keeps_andThen; [apply keeps_logPrintf|].
  destruct (negb _); [apply keeps_fail|].
  apply keeps_andThen; [apply keeps_write|].
  destruct (ToLower (Data n) =? "html")%string.
  - apply keeps_forRange. intros c. unfold visitHtmlChild.
    destruct (_ =? _)%string; [apply keeps_logPrintf|].
    destruct (_ =? _)%string; [apply keeps_logPrintf | apply keeps_fail].
  - unfold visitMount.
    apply keeps_andThen; [apply keeps_logPrintf|].
    apply keeps_andThen; [intros w; apply keeps_write|].
    apply keeps_syncElementEtc. intros c k _.
    apply keeps_visitSyncNode.
Qed.

(** X5.  When [Render] returns nil the buffer is empty and the host has
    been handed, in order: what it had been handed before, what was still
    in the buffer when the pass began (such as the remains of a failed
    pass), and the instructions of this pass. *)
Theorem Render_delivers_on_success (bo : option BuildOut) (w w' : World) :
  Render bo w = (None, w') ->
  pending (instructionList_ w') = [] /\
  exists b el,
    bo = Some b /\ Doc b = Some el /\
    List.concat (flushed (instructionList_ w')) =
    List.concat (flushed (instructionList_ w)) ++
    pending (instructionList_ w) ++
    visitFirstInstrs (MountPointSelector w) el (list_byte_of_string "0").
Proof.
  intros E.
  assert (Hp : pending (instructionList_ w') = []).
  { unfold Render in E. destruct (jsGlobalTruthy w); [|discriminate].
    destruct bo as [b|]; [|discriminate].
    destruct (Doc b) as [el|]; [|discriminate].
    destruct (VGNodeType_eqb (Type_ el) ElementNode); [|discriminate].
    cbn [negb] in E.
    apply andThen_ok_inv in E as (w1 & _ & E).
    apply andThen_ok_inv in E as (w2 & _ & E).
    apply andThen_ok_inv in E as (w3 & _ & E).
    unfold flush in E. now injection E as <-. }
  split; [exact Hp|].
  destruct (Render_ok _ _ E) as (b & el & -> & Hdoc & Hw & _).
  exists b, el. repeat split; auto.
  unfold written in Hw. rewrite Hp, app_nil_r in Hw.
  now rewrite Hw, app_assoc.
Qed.

(** X6.  When [Render] returns an error and no write has failed (the
    error is not [BufferOverflow]), it has not made its final flush.  With
    [d] the instructions the pass has written: either nothing has been
    handed to the host during the pass and [d] follows in the buffer what
    was waiting there before, or the buffer holds a tail of [d] that is
    not empty, so that the last instruction written is still waiting. *)
Theorem Render_failure_skips_flush (bo : option BuildOut) (w : World)
    (e : error) :
  fst (Render bo w) = Some e ->
  e <> BufferOverflow ->
  exists d,
    written (snd (Render bo w)) = written w ++ d /\
    (flushed (instructionList_ (snd (Render bo w))) =
     flushed (instructionList_ w) /\
     pending (instructionList_ (snd (Render bo w))) =
     pending (instructionList_ w) ++ d \/
     exists d1 d2,
       d = d1 ++ d2 /\ d2 <> [] /\
       pending (instructionList_ (snd (Render bo w))) = d2).
Proof.
  assert (Hcases :
            snd (Render bo w) = w \/
            exists b el w2,
              instructionList_ w2 = instructionList_ w /\
              Render bo w =
              andThen (visitFirst b el (list_byte_of_string "0")) flush w2).
  { unfold Render. destruct (jsGlobalTruthy w); [|now left].
    destruct bo as [b|]; [|now left].
    destruct (Doc b) as [el|]; [|now left].
    destruct (VGNodeType_eqb (Type_ el) ElementNode); [|now left].
    right. exists b, el.
    exists (snd (logPrintf "el: %#v" [ArgNode el]
                   (snd (logPrintf "BuildOut: %#v" [ArgBuildOut b] w)))).
    split; reflexivity. }
  destruct Hcases as [->|(b & el & w2 & Hi & ->)].
  { intros _ _. exists []. rewrite !app_nil_r. auto. }
  assert (Hw : written w2 = written w) by (unfold written; now rewrite Hi).
  rewrite <- Hi, <- Hw. unfold andThen.
  pose proof (keeps_visitFirst b el (list_byte_of_string "0") w2) as Hv.
  destruct (visitFirst b el (list_byte_of_string "0") w2) as [[e1|] w3];
    cbn [fst snd] in *; [|discriminate].
  intros He Hne. apply Hv. congruence.
Qed.
End ExtraDelivery.

Set Implicit Arguments.

Section ExtraNeeds.
Context `{InstructionCodec}.

Lemma needs_ret : needs ret [] True.
Proof. intros w _. split; [constructor | exact I]. Qed.

Lemma needs_logPrintf (f : string) (a : list fmtArg) :
  needs (logPrintf f a) [] True.
Proof. intros w _. split; [constructor | exact I]. Qed.

Lemma needs_fail (e : error) (t : list instruction) (K : Prop) :
  needs (fail e) t K.
Proof. intros w. discriminate. Qed.

Lemma needs_write (i : instruction) : needs (write i) [i] True.
Proof.
  intros w Hnil. destruct (write i w) as [[e|] w'] eqn:E; [discriminate|].
  apply write_ok_inv in E as [Hf _]. split; [now constructor | exact I].
Qed.

Lemma needs_weaken (m : M) (t : list instruction) (K K' : Prop) :
  (K -> K') -> needs m t K -> needs m t K'.
Proof. intros HK Hm w Hnil. destruct (Hm w Hnil). auto. Qed.

Lemma needs_andThen (P : logLine -> Prop) (m k : M)
    (t1 t2 : list instruction) (K1 K2 : Prop) :
  tracesWith P m t1 -> needs m t1 K1 -> needs k t2 K2 ->
  needs (andThen m k) (t1 ++ t2) (K1 /\ K2).
Proof.
  intros Ht Hm Hk w Hnil. unfold andThen in Hnil.
  destruct (Ht w) as (d & l & _ & Hc & _). specialize (Hm w).
  destruct (m w) as [[e|] w1]; simpl in *; [discriminate|].
  destruct (Hm eq_refl) as [F1 HK1]. destruct (Hk w1 Hnil) as [F2 HK2].
  split; [|auto]. apply Forall_app. split; [exact F1|].
  eapply Forall_impl; [|exact F2]. intros i. now apply fits_config.
Qed.

Lemma needs_forRange (A : Type) (xs : list A) (body : A -> M)
    (f : A -> list instruction) :
  (forall x, tracesWith (fun _ => True) (body x) (f x)) ->
  (forall x, needs (body x) (f x) True) ->
  needs (forRange xs body) (flat_map f xs) True.
Proof.
  intros Ht Hb. induction xs as [|x xs IH]; simpl.
  - apply needs_ret.
  - eapply needs_weaken; [|eapply needs_andThen; eauto]. auto.
Qed.

Lemma needs_syncElementTail (v : VGNode -> PositionID -> M)
    (f : VGNode -> PositionID -> list instruction) (g : VGNode -> bool)
    (n : VGNode) (q : PositionID) :
  (forall c k, FirstChild n = Some c -> InnerHTML n = None ->
               traces (syncSiblings v q c k) (siblingsInstrs f q c k) /\
               needs (syncSiblings v q c k) (siblingsInstrs f q c k)
                     (siblingsKnown g c = true)) ->
  needs (syncElementTail v n q) (elementRest f n q)
        (elementKnown g n = true).
Proof.
  unfold syncElementTail, elementRest, elementKnown. intros Hs.
  destruct (InnerHTML n) as [html|];
    [eapply needs_weaken; [|apply needs_write]; auto|].
  destruct (FirstChild n) as [first|];
    [|eapply needs_weaken; [|apply needs_ret]; auto].
  destruct (Hs first 1%Z eq_refl eq_refl) as [Ht Hn].
  eapply needs_weaken;
    [|apply (needs_andThen (P := fun _ => True) (t1 := [MoveToFirstChild]));
      [apply traces_write | apply needs_write |];
      eapply needs_andThen;
      [apply traces_any, Ht | exact Hn | apply needs_write]].
  tauto.
Qed.

Lemma needs_syncElementEtc_tail (v : VGNode -> PositionID -> M)
    (n : VGNode) (q : PositionID) (tr : list instruction) (K : Prop) :
  needs (syncElementTail v n q) tr K ->
  needs (syncElementEtc v n q) (elementPrefix n q ++ tr) K.
Proof.
  intros HT.
  assert (HA : forall (A : Type) (g : A -> instruction) (xs : list A),
             tracesWith (fun _ => True)
               (forRange xs (fun x => write (g x))) (map g xs) /\
             needs (forRange xs (fun x => write (g x))) (map g xs) True).
  { intros A g xs. rewrite <- flat_map_singleton. split.
    - apply traces_forRange. intros x. apply traces_write.
    - apply needs_forRange; intros x;
        [apply traces_write | apply needs_write]. }
  unfold syncElementEtc, elementPrefix. rewrite forRange_guarded.
  intros w Hnil.
  destruct (needs_andThen (proj1 (HA _ _ _)) (proj2 (HA _ _ _))
              (needs_andThen (traces_write (fun _ => True) RemoveOtherAttrs)
                 (needs_write RemoveOtherAttrs)
                 (needs_andThen (proj1 (HA _ _ _)) (proj2 (HA _ _ _))
                    (needs_andThen
                       (traces_write (fun _ => True)
                          (RemoveOtherEventListeners q))
                       (needs_write (RemoveOtherEventListeners q))
                       HT))) w Hnil) as [F HK].
  split; [|tauto]. unfold attrInstrs, listenerInstrs.
  now rewrite <- !app_assoc.
Qed.

Lemma needs_visitSyncNode (bo : BuildOut) (n : VGNode) :
  (forall q, needs (visitSyncNode bo n q) (nodeInstrs n q)
                   (typesKnown n = true)) /\
  (forall q k, needs (syncSiblings (visitSyncNode bo) q n k)
                     (siblingsInstrs nodeInstrs q n k)
                     (siblingsKnown typesKnown n = true)).
Proof.
  induction n as [n IHc IHs] using VGNode_pointer_ind.
  assert (Hnode : forall q, needs (visitSyncNode bo n q) (nodeInstrs n q)
                                  (typesKnown n = true)).
  { intros q. rewrite visitSyncNode_eq, nodeInstrs_eq, typesKnown_eq.
    eapply needs_weaken;
      [|apply (needs_andThen (P := fun _ => True) (t1 := []) (K1 := True));
        [now apply traces_logPrintf | apply needs_logPrintf |]];
      [intros [_ HK]; exact HK|].
    destruct (Type_ n).
    - eapply needs_weaken;
        [|apply (needs_andThen (P := fun _ => True)
                   (t1 := [SetElement (Data n)]));
          [apply traces_write | apply needs_write |];
          apply needs_syncElementEtc_tail, needs_syncElementTail;
          intros c k Hc Hraw; split;
          [apply traces_visitSyncNode_siblings | apply (IHc c Hc)]].
      tauto.
    - eapply needs_weaken; [|apply needs_write]. auto.
    - eapply needs_weaken; [|apply needs_write]. auto.
    - apply needs_fail. }
  split; [exact Hnode|].
  intros q k. rewrite syncSiblings_eq, siblingsInstrs_eq, siblingsKnown_eq.
  destruct (NextSibling n) as [next|].
  - eapply needs_weaken;
      [|eapply needs_andThen;
        [apply traces_any, traces_visitSyncNode | apply Hnode |];
        apply (needs_andThen (P := fun _ => True)
                 (t1 := [MoveToNextSibling]));
        [apply traces_write | apply needs_write
         | apply (proj2 (IHs next eq_refl))]].
    intros (Hn & _ & Hs). now rewrite Hn.
  - eapply needs_weaken;
      [|eapply needs_andThen;
        [apply traces_any, traces_visitSyncNode | apply Hnode |];
        apply (needs_andThen (P := fun _ => True)
                 (t1 := [MoveToNextSibling]));
        [apply traces_write | apply needs_write | apply needs_ret]].
    intros (Hn & _ & _). now rewrite Hn.
Qed.
End ExtraNeeds.

Unset Implicit Arguments.

Lemma countInstr_app (p : instruction -> bool) (a b : list instruction) :
  countInstr p (a ++ b) = countInstr p a + countInstr p b.
Proof. unfold countInstr. now rewrite filter_app, length_app. Qed.

Lemma countInstr_map_none (p : instruction -> bool) (A : Type)
    (g : A -> instruction) (l : list A) :
  (forall x, p (g x) = false) -> countInstr p (map g l) = 0.
Proof.
  intros Hg. unfold countInstr. induction l as [|x l IH]; simpl; auto.
  now rewrite Hg.
Qed.

Lemma countInstr_elementPrefix (n : VGNode) (q : PositionID) :
  countInstr isSetElement (elementPrefix n q) = 0 /\
  countInstr isRemoveOtherAttrs (elementPrefix n q) = 1 /\
  countInstr isRemoveOtherEventListeners (elementPrefix n q) = 1.
Proof.
  unfold elementPrefix, attrInstrs, listenerInstrs.
  rewrite !countInstr_app, !countInstr_map_none by reflexivity.
  now repeat split.
Qed.

(** Below a node, as many elements are set as are stripped of their other
    attributes, and as are stripped of their other listeners. *)
Lemma countInstr_nodeInstrs (n : VGNode) :
  (forall q,
      countInstr isRemoveOtherAttrs (nodeInstrs n q) =
      countInstr isSetElement (nodeInstrs n q) /\
      countInstr isRemoveOtherEventListeners (nodeInstrs n q) =
      countInstr isSetElement (nodeInstrs n q)) /\
  (forall q k,
      countInstr isRemoveOtherAttrs (siblingsInstrs nodeInstrs q n k) =
      countInstr isSetElement (siblingsInstrs nodeInstrs q n k) /\
      countInstr isRemoveOtherEventListeners
        (siblingsInstrs nodeInstrs q n k) =
      countInstr isSetElement (siblingsInstrs nodeInstrs q n k)).
Proof.
  induction n as [n IHc IHs] using VGNode_pointer_ind.
  assert (Hnode : forall q,
             countInstr isRemoveOtherAttrs (nodeInstrs n q) =
             countInstr isSetElement (nodeInstrs n q) /\
             countInstr isRemoveOtherEventListeners (nodeInstrs n q) =
             countInstr isSetElement (nodeInstrs n q)).
  { intros q. rewrite nodeInstrs_eq.
    destruct (Type_ n); try (split; reflexivity).
    change (SetElement (Data n) :: ?t) with ([SetElement (Data n)] ++ t).
    unfold elementEtcInstrs. rewrite !countInstr_app.
    destruct (countInstr_elementPrefix n q) as (-> & -> & ->).
    unfold elementRest. destruct (InnerHTML n); [split; reflexivity|].
    destruct (FirstChild n) as [first|]; [|split; reflexivity].
    change (MoveToFirstChild :: ?t) with ([MoveToFirstChild] ++ t).
    rewrite !countInstr_app.
    destruct (proj2 (IHc first eq_refl) q 1%Z) as [-> ->].
    split; reflexivity. }
  split; [exact Hnode|].
  intros q k. rewrite siblingsInstrs_eq.
  change (MoveToNextSibling :: ?t) with ([MoveToNextSibling] ++ t).
  rewrite !countInstr_app.
  destruct (Hnode (childPositionID q k)) as [-> ->].
  destruct (NextSibling n) as [next|]; [|split; reflexivity].
  destruct (proj2 (IHs next eq_refl) q (wrapInt (k + 1))) as [-> ->].
  split; reflexivity.
Qed.

Lemma logPrintf_inv (f : string) (a : list fmtArg) (w w' : World) :
  logPrintf f a w = (None, w') -> config w' = config w.
Proof. unfold logPrintf. now intros [= <-]. Qed.

Section ExtraRender.
Context `{InstructionCodec}.

Lemma needs_visitSyncElementEtc (bo : BuildOut) (n : VGNode)
    (q : PositionID) :
  needs (visitSyncElementEtc bo n q) (elementEtcInstrs n q)
        (elementKnown typesKnown n = true).
Proof.
  apply needs_syncElementEtc_tail, needs_syncElementTail.
  intros c k _ _. split; [apply traces_visitSyncNode_siblings|].
  apply needs_visitSyncNode.
Qed.

(** X8.  For a root whose lowered tag is not ["html"], [Render] returns
    nil exactly when the JS environment is there, the root is an element,
    every node the traversal reaches is an element, a text or a comment,
    and every instruction of the pass fits the buffer. *)
Theorem Render_nil_iff_mounted (bo : BuildOut) (el : VGNode) (w : World) :
  Doc bo = Some el ->
  ToLower (Data el) <> "html"%string ->
  (fst (Render (Some bo) w) = None <->
   jsGlobalTruthy w = true /\
   Type_ el = ElementNode /\
   elementKnown typesKnown el = true /\
   Forall (fits w)
     (ClearElement :: SelectMountPoint (MountPointSelector w) (Data el) ::
      elementEtcInstrs el (list_byte_of_string "0"))).
Proof.
  intros Hdoc Hhtml. split.
  2: { intros (Hjs & Hty & Hk & Hfit).
       now apply (@Render_succeeds _ bo el w). }
  intros Hnil. apply String.eqb_neq in Hhtml.
  unfold Render in Hnil.
  destruct (jsGlobalTruthy w) eqn:Hjs; [|discriminate].
  rewrite Hdoc in Hnil.
  assert (Hty : Type_ el = ElementNode).
  { destruct (Type_ el); [reflexivity | discriminate ..]. }
  rewrite Hty in Hnil. cbn [negb VGNodeType_eqb] in Hnil.
  match type of Hnil with
  | fst (?m w) = None =>
      destruct (m w) as [r w'] eqn:E; simpl in Hnil; subst r
  end.
  apply andThen_ok_inv in E as (w1 & E1 & E). apply logPrintf_inv in E1.
  apply andThen_ok_inv in E as (w2 & E2 & E). apply logPrintf_inv in E2.
  apply andThen_ok_inv in E as (w3 & E & _). unfold visitFirst in E.
  apply andThen_ok_inv in E as (w4 & E4 & E). apply logPrintf_inv in E4.
  apply andThen_ok_inv in E as (w5 & E5 & E). apply logPrintf_inv in E5.
  rewrite Hty, Hhtml in E. cbn [negb VGNodeType_eqb] in E.
  apply andThen_ok_inv in E as (w6 & E6 & E).
  apply write_ok_inv in E6 as (F6 & _ & C6 & _).
  unfold visitMount in E.
  apply andThen_ok_inv in E as (w7 & E7 & E). apply logPrintf_inv in E7.
  apply andThen_ok_inv in E as (w8 & E8 & E).
  apply write_ok_inv in E8 as (F8 & _ & C8 & _).
  assert (Hn : fst (visitSyncElementEtc bo el (list_byte_of_string "0") w8)
               = None) by now rewrite E.
  apply needs_visitSyncElementEtc in Hn as [F9 Hk].
  assert (C5 : config w5 = config w) by congruence.
  assert (C7 : config w7 = config w) by congruence.
  assert (C8' : config w8 = config w) by congruence.
  repeat split; auto.
  constructor; [now apply (fits_config (eq_sym C5))|].
  constructor.
  - rewrite <- (config_selector C7). now apply (fits_config (eq_sym C7)).
  - eapply Forall_impl; [|exact F9].
    intros i. now apply (fits_config (eq_sym C8')).
Qed.

(** X9.  In a pass over a mounted root that returns nil, every element
    brought up to date is also stripped of its stale attributes and
    listeners: there is one [RemoveOtherAttrs] and one
    [RemoveOtherEventListeners] for the root and one of each for every
    [SetElement]. *)
Theorem Render_cleans_every_element (bo : BuildOut) (el : VGNode)
    (w w' : World) :
  Doc bo = Some el ->
  ToLower (Data el) <> "html"%string ->
  Render (Some bo) w = (None, w') ->
  exists d,
    written w' = written w ++ d /\
    countInstr isRemoveOtherAttrs d = S (countInstr isSetElement d) /\
    countInstr isRemoveOtherEventListeners d =
    S (countInstr isSetElement d).
Proof.
  intros Hdoc Hhtml E. apply String.eqb_neq in Hhtml.
  destruct (Render_ok _ _ E) as (b & el' & Eb & Hdoc' & Hw & _).
  injection Eb as <-. rewrite Hdoc in Hdoc'. injection Hdoc' as <-.
  eexists. split; [exact Hw|].
  unfold visitFirstInstrs. rewrite Hhtml.
  change (ClearElement :: SelectMountPoint ?s ?g :: ?t)
    with ([ClearElement; SelectMountPoint s g] ++ t).
  unfold elementEtcInstrs. rewrite !countInstr_app.
  destruct (countInstr_elementPrefix el (list_byte_of_string "0"))
    as (-> & -> & ->).
  unfold elementRest. destruct (InnerHTML el); [split; reflexivity|].
  destruct (FirstChild el) as [first|]; [|split; reflexivity].
  change (MoveToFirstChild :: ?t) with ([MoveToFirstChild] ++ t).
  rewrite !countInstr_app.
  destruct (proj2 (countInstr_nodeInstrs first)
              (list_byte_of_string "0") 1%Z) as [-> ->].
  split; reflexivity.
Qed.

(** X10.  [EventWait] changes nothing, returns false exactly when every
    [Render] from the same world fails with the error of the environment,
    and returns true exactly when no [Render] from that world does. *)
Theorem EventWait_agrees_with_Render (w : World) :
  snd (EventWait w) = w /\
  (fst (EventWait w) = false <->
   forall bo,
     Render bo w = (Some (Errorf "js environment not available" []), w)) /\
  (fst (EventWait w) = true <->
   forall bo,
     fst (Render bo w) <> Some (Errorf "js environment not available" [])).
Proof.
  split; [unfold EventWait; now destruct (jsGlobalTruthy w)|].
  destruct (jsGlobalTruthy w) eqn:Hjs.
  - assert (Hnot : forall bo,
               fst (Render bo w) <>
               Some (Errorf "js environment not available" [])).
    { intros bo He.
      destruct (Render_error_cases bo w _ He)
        as [[Hf _]|[_ [E|[E|[(t & _ & E)|Ht]]]]];
        try congruence; try discriminate. inversion Ht. }
    unfold EventWait. rewrite Hjs. simpl. split; split; auto;
      try discriminate.
    intros Hall. exfalso. apply (Hnot None). now rewrite Hall.
  - assert (Hall : forall bo,
               Render bo w =
               (Some (Errorf "js environment not available" []), w)).
    { intros bo. unfold Render. now rewrite Hjs. }
    unfold EventWait. rewrite Hjs. simpl. split; split; auto;
      try discriminate.
    intros Hnot. exfalso. apply (Hnot None). now rewrite Hall.
Qed.
End ExtraRender.

Section ExtraHtml.
Context `{InstructionCodec}.

Lemma htmlChildren_nil_iff (bo : BuildOut) (q : PositionID)
    (cs : list VGNode) :
  forall w,
    fst (forRange cs (visitHtmlChild bo q) w) = None <->
    Forall (fun c => isHead c || isBody c = true) cs.
Proof.
  induction cs as [|c cs IH]; intros w; simpl.
  - split; auto.
  - unfold andThen, visitHtmlChild, visitHead, visitBody, isHead, isBody.
    destruct (ToLower (Data c) =? "head")%string eqn:Hh.
    + cbn [logPrintf]. rewrite IH. split.
      * intros F. constructor; auto. unfold isHead. now rewrite Hh.
      * intros F. now inversion F.
    + destruct (ToLower (Data c) =? "body")%string eqn:Hb.
      * cbn [logPrintf]. rewrite IH. split.
        -- intros F. constructor; auto. unfold isHead, isBody.
           now rewrite Hh, Hb.
        -- intros F. now inversion F.
      * cbn [fail fst]. split; [discriminate|].
        intros F. inversion F as [|? ? Hc _]; subst.
        unfold isHead, isBody in Hc. rewrite Hh, Hb in Hc. discriminate.
Qed.

Lemma fst_andThen_flush (m : M) (w : World) :
  fst (andThen m flush w) = fst (m w).
Proof. unfold andThen. now destruct (m w) as [[e|] w']. Qed.

(** X11.  For a root whose lowered tag is ["html"], [Render] returns nil
    exactly when the JS environment is there, the root is an element,
    [ClearElement] fits the buffer and the lowered tag of every child of
    the root, a text or comment node between the tags included, is
    ["head"] or ["body"]. *)
Theorem Render_nil_iff_html (bo : BuildOut) (el : VGNode) (w : World) :
  Doc bo = Some el ->
  ToLower (Data el) = "html"%string ->
  (fst (Render (Some bo) w) = None <->
   jsGlobalTruthy w = true /\
   Type_ el = ElementNode /\
   fits w ClearElement /\
   Forall (fun c => isHead c || isBody c = true) (children el)).
Proof.
  intros Hdoc Hhtml. unfold Render. rewrite Hdoc.
  destruct (jsGlobalTruthy w) eqn:Hjs;
    [|split; [discriminate | intros (? & _); discriminate]].
  destruct (Type_ el) eqn:Hty; cbn [negb VGNodeType_eqb];
    try (split; [discriminate | intros (_ & ? & _); discriminate]).
  unfold andThen at 1 2. cbn [logPrintf].
  set (w2 := mkWorld _ _ _ _). rewrite fst_andThen_flush.
  unfold visitFirst. unfold andThen at 1 2. cbn [logPrintf].
  set (w4 := mkWorld _ _ _ _).
  rewrite Hty, Hhtml. cbn [negb VGNodeType_eqb String.eqb Ascii.eqb
                             Bool.eqb andb].
  assert (Hc : config w4 = config w) by (unfold config; simpl; congruence).
  unfold andThen, writeClearEl.
  destruct (fits_dec w ClearElement) as [Hf|Hf].
  - destruct (@write_fits _ ClearElement w4 (fits_config Hc Hf))
      as (w5 & -> & _).
    rewrite htmlChildren_nil_iff. tauto.
  - rewrite write_overflow
      by (intros Hf4; apply Hf; now apply (fits_config (eq_sym Hc))).
    split; [discriminate | tauto].
Qed.
End ExtraHtml.

Set Implicit Arguments.

(** * The theorems at work on the sample values *)

Lemma allFit_fits `{InstructionCodec} (w : World)
    (instrs : list instruction) :
  allFit w instrs = true -> Forall (fits w) instrs.
Proof.
  unfold allFit, fits. intros E. apply Forall_forall. intros i Hi.
  rewrite forallb_forall in E. now apply Nat.leb_le, E.
Qed.

#[local] Existing Instance sampleCodec.

Lemma visitSyncElementEtc_attrs_then_listeners_witness :
  Forall (fits sampleWorld) (elementPrefix sampleDiv p0) /\
  exists rest,
    written (snd (visitSyncElementEtc (sampleBuildOut sampleDiv) sampleDiv
                    p0 sampleWorld)) =
    written sampleWorld ++
    map (fun a => SetAttr (Key a) (Val a)) (Attr sampleDiv) ++
    [RemoveOtherAttrs] ++
    map (fun hs => SetEventListener p0 (EventType hs) (Capture hs)
                     (Passive hs))
        (DOMEventHandlerSpecList sampleDiv) ++
    [RemoveOtherEventListeners p0] ++
    rest.
Proof.
  assert (Hfit : Forall (fits sampleWorld) (elementPrefix sampleDiv p0))
    by (apply allFit_fits; reflexivity).
  split; [exact Hfit|].
  exact (visitSyncElementEtc_attrs_then_listeners
           (sampleBuildOut sampleDiv) sampleDiv p0 Hfit).
Defined.

Lemma visitSyncElementEtc_innerHTML_witness :
  InnerHTML sampleRaw = Some "<b>x</b>" /\
  Forall (fits sampleWorld)
         (elementPrefix sampleRaw p0 ++ [SetInnerHTML "<b>x</b>"]) /\
  fst (visitSyncElementEtc (sampleBuildOut sampleRaw) sampleRaw p0
         sampleWorld) = None /\
  written (snd (visitSyncElementEtc (sampleBuildOut sampleRaw) sampleRaw p0
                  sampleWorld)) =
  [SetAttr "id" "a"; RemoveOtherAttrs; RemoveOtherEventListeners p0;
   SetInnerHTML "<b>x</b>"].
Proof.
  assert (Hfit : Forall (fits sampleWorld)
                   (elementPrefix sampleRaw p0 ++ [SetInnerHTML "<b>x</b>"]))
    by (apply allFit_fits; reflexivity).
  split; [reflexivity|]. split; [exact Hfit|].
  exact (proj2 (proj2 (visitSyncElementEtc_innerHTML
                         (sampleBuildOut sampleRaw) sampleRaw p0
                         sampleWorld eq_refl)) Hfit).
Defined.


Lemma Render_rejects_bad_input_witness :
  (Some (sampleBuildOut (leaf TextNode "x" None)) = None \/
   exists b,
     Some (sampleBuildOut (leaf TextNode "x" None)) = Some b /\
     (Doc b = None \/
      exists el, Doc b = Some el /\ Type_ el <> ElementNode)) /\
  exists e,
    Render (Some (sampleBuildOut (leaf TextNode "x" None))) sampleWorld =
    (Some e, sampleWorld).
Proof.
  assert (Hbad :
            Some (sampleBuildOut (leaf TextNode "x" None)) = None \/
            exists b,
              Some (sampleBuildOut (leaf TextNode "x" None)) = Some b /\
              (Doc b = None \/
               exists el, Doc b = Some el /\ Type_ el <> ElementNode)).
  { right. exists (sampleBuildOut (leaf TextNode "x" None)).
    split; [reflexivity|]. right. exists (leaf TextNode "x" None).
    split; [reflexivity|]. discriminate. }
  split; [exact Hbad|].
  exact (proj1 (Render_rejects_bad_input sampleWorld Hbad)).
Defined.

Lemma Render_mounts_other_roots_witness :
  Doc (sampleBuildOut sampleDiv) = Some sampleDiv /\
  ToLower (Data sampleDiv) <> "html" /\
  fst (Render (Some (sampleBuildOut sampleDiv)) sampleWorld) = None /\
  written (snd (Render (Some (sampleBuildOut sampleDiv)) sampleWorld)) =
  written sampleWorld ++
  [ClearElement; SelectMountPoint "#app" "div";
   SetAttr "id" "a"; SetAttr "class" "b"; RemoveOtherAttrs;
   SetEventListener p0 "click" false true; RemoveOtherEventListeners p0;
   MoveToFirstChild;
   SetText "hi"; MoveToNextSibling;
   SetComment "c"; MoveToNextSibling;
   SetElement "p"; RemoveOtherAttrs;
   RemoveOtherEventListeners (list_byte_of_string "0_3"); MoveToNextSibling;
   MoveToParent].
Proof.
  assert (Hdiv : ToLower (Data sampleDiv) <> "html")
    by (vm_compute; discriminate).
  assert (Hclear : fits sampleWorld ClearElement)
    by (apply Nat.leb_le; vm_compute; reflexivity).
  assert (Hmount : fits sampleWorld
                     (SelectMountPoint (MountPointSelector sampleWorld)
                        (Data sampleDiv)))
    by (apply Nat.leb_le; vm_compute; reflexivity).
  assert (Hk : elementKnown typesKnown sampleDiv = true)
    by (vm_compute; reflexivity).
  assert (Hfit : Forall (fits sampleWorld)
                   (elementEtcInstrs sampleDiv (list_byte_of_string "0")))
    by (apply allFit_fits; vm_compute; reflexivity).
  destruct (@Render_mounts_other_roots _ (sampleBuildOut sampleDiv)
              sampleDiv sampleWorld eq_refl Hdiv)
    as (d & l & Hw & _ & _ & _ & _ & Hrun).
  destruct (Hrun eq_refl eq_refl Hclear Hmount) as (rest & -> & Hsucc).
  destruct (Hsucc Hk Hfit) as [Hnil ->].
  split; [reflexivity|]. split; [exact Hdiv|]. split; [exact Hnil|].
  rewrite Hw. vm_compute. reflexivity.
Defined.

Lemma visitFirst_html_children_witness :
  Type_ sampleHtmlBad = ElementNode /\
  ToLower (Data sampleHtmlBad) = "html" /\
  fits sampleWorld ClearElement /\
  children sampleHtmlBad =
  [leaf ElementNode "head"
     (Some (leaf TextNode " " (Some (leaf ElementNode "body" None))))] ++
  [leaf TextNode " " (Some (leaf ElementNode "body" None));
   leaf ElementNode "body" None] /\
  exists w',
    visitFirst (sampleBuildOut sampleHtmlBad) sampleHtmlBad p0 sampleWorld =
    (Some (Errorf "unexpected tag inside html %q (VGNode=%#v)"
             [ArgString " ";
              ArgNode (leaf TextNode " "
                         (Some (leaf ElementNode "body" None)))]), w') /\
    written w' = written sampleWorld ++ [ClearElement] /\
    logOutput w' =
    logOutput sampleWorld ++ visitFirstLog ++ [Printf "TODO: visitHead" []].
Proof.
  assert (Hfit : fits sampleWorld ClearElement)
    by (apply Nat.leb_le; reflexivity).
  assert (Hhtml : ToLower (Data sampleHtmlBad) = "html")
    by (vm_compute; reflexivity).
  assert (Hpre : Forall (fun c => isHead c || isBody c = true)
                   [leaf ElementNode "head"
                      (Some (leaf TextNode " "
                               (Some (leaf ElementNode "body" None))))])
    by (constructor; [vm_compute; reflexivity | constructor]).
  assert (Hrest : isHead (leaf TextNode " "
                            (Some (leaf ElementNode "body" None)))
                  || isBody (leaf TextNode " "
                               (Some (leaf ElementNode "body" None)))
                  = false)
    by (vm_compute; reflexivity).
  split; [reflexivity|]. split; [exact Hhtml|]. split; [exact Hfit|].
  split; [reflexivity|].
  exact (proj1 (@visitFirst_html_children _
                  (sampleBuildOut sampleHtmlBad) sampleHtmlBad p0
                  [leaf ElementNode "head"
                     (Some (leaf TextNode " "
                              (Some (leaf ElementNode "body" None))))]
                  [leaf TextNode " " (Some (leaf ElementNode "body" None));
                   leaf ElementNode "body" None]
                  sampleWorld eq_refl Hhtml Hfit eq_refl Hpre Hrest)).
Defined.

Lemma Render_without_js_witness :
  jsGlobalTruthy sampleWorldNoJS = false /\
  Render (Some (sampleBuildOut sampleDiv)) sampleWorldNoJS =
  (Some (Errorf "js environment not available" []), sampleWorldNoJS).
Proof.
  split; [reflexivity|].
  exact (Render_without_js (Some (sampleBuildOut sampleDiv))
           sampleWorldNoJS eq_refl).
Defined.

Lemma Render_twice_same_instructions_witness :
  Render (Some (sampleBuildOut sampleDiv)) sampleWorld =
  (None, snd (Render (Some (sampleBuildOut sampleDiv)) sampleWorld)) /\
  Render (Some (sampleBuildOut sampleDiv))
    (snd (Render (Some (sampleBuildOut sampleDiv)) sampleWorld)) =
  (None,
   snd (Render (Some (sampleBuildOut sampleDiv))
          (snd (Render (Some (sampleBuildOut sampleDiv)) sampleWorld)))) /\
  exists d,
    written (snd (Render (Some (sampleBuildOut sampleDiv)) sampleWorld)) =
    written sampleWorld ++ d /\
    written
      (snd (Render (Some (sampleBuildOut sampleDiv))
              (snd (Render (Some (sampleBuildOut sampleDiv)) sampleWorld)))) =
    written (snd (Render (Some (sampleBuildOut sampleDiv)) sampleWorld)) ++ d.
Proof.
  assert (E1 : Render (Some (sampleBuildOut sampleDiv)) sampleWorld =
               (None,
                snd (Render (Some (sampleBuildOut sampleDiv)) sampleWorld)))
    by (vm_compute; reflexivity).
  assert (E2 : Render (Some (sampleBuildOut sampleDiv))
                 (snd (Render (Some (sampleBuildOut sampleDiv))
                         sampleWorld)) =
               (None,
                snd (Render (Some (sampleBuildOut sampleDiv))
                       (snd (Render (Some (sampleBuildOut sampleDiv))
                               sampleWorld)))))
    by (vm_compute; reflexivity).
  split; [exact E1|]. split; [exact E2|].
  exact (@Render_twice_same_instructions _
           (Some (sampleBuildOut sampleDiv)) sampleWorld _ _ E1 E2).
Defined.

Lemma visitSyncNode_not_element_witness :
  Type_ (leaf DocumentNode "" None) <> ElementNode /\
  fst (visitSyncNode (sampleBuildOut sampleBadChild)
         (leaf DocumentNode "" None) (list_byte_of_string "0_2")
         sampleWorld) =
  Some (Errorf "unknown node type %v" [ArgNodeType DocumentNode]) /\
  written (snd (visitSyncNode (sampleBuildOut sampleBadChild)
                  (leaf DocumentNode "" None) (list_byte_of_string "0_2")
                  sampleWorld)) =
  written sampleWorld ++ [].
Proof.
  assert (Hty : Type_ (leaf DocumentNode "" None) <> ElementNode)
    by discriminate.
  split; [exact Hty|].
  destruct (@visitSyncNode_not_element _ (sampleBuildOut sampleBadChild)
              (leaf DocumentNode "" None) (list_byte_of_string "0_2")
              sampleWorld Hty (Forall_nil _)) as (Hr & Hw & _).
  split; [exact Hr | exact Hw].
Defined.

(** A document node below the root stops the whole pass: [Render] returns
    its error and the instructions written so far are left unflushed. *)
Example Render_stops_at_document_node :
  fst (Render (Some (sampleBuildOut sampleBadChild)) sampleWorld) =
  Some (Errorf "unknown node type %v" [ArgNodeType DocumentNode]) /\
  flushed (instructionList_
             (snd (Render (Some (sampleBuildOut sampleBadChild))
                     sampleWorld))) = [] /\
  pending (instructionList_
             (snd (Render (Some (sampleBuildOut sampleBadChild))
                     sampleWorld))) =
  [ClearElement; SelectMountPoint "#app" "div"; RemoveOtherAttrs;
   RemoveOtherEventListeners p0; MoveToFirstChild;
   SetText "t"; MoveToNextSibling].
Proof. repeat split; vm_compute; reflexivity. Qed.

(** A buffer too small for an instruction makes the write, and the pass,
    fail with [BufferOverflow]. *)
Example Render_overflow :
  fst (Render (Some (sampleBuildOut sampleDiv))
         (mkWorld true "#app" (mkInstructionList 8 [] []) [])) =
  Some BufferOverflow.
Proof. vm_compute. reflexivity. Qed.

(** With a 32 byte buffer the same pass succeeds in several batches, no
    instruction split between two of them. *)
Example Render_batches :
  Render (Some (sampleBuildOut sampleRaw))
    (mkWorld true "#app" (mkInstructionList 32 [] []) []) =
  (None,
   mkWorld true "#app"
     (mkInstructionList 32 []
        [[ClearElement; SelectMountPoint "#app" "div"; SetAttr "id" "a";
          RemoveOtherAttrs];
         [RemoveOtherEventListeners p0; SetInnerHTML "<b>x</b>"]])
     [Printf "BuildOut: %#v" [ArgBuildOut (sampleBuildOut sampleRaw)];
      Printf "el: %#v" [ArgNode sampleRaw];
      Printf "TODO: We need to go through and optimize away unneeded calls to create elements, set attributes, set event handlers, etc. for cases where they are the same per hash" [];
      Printf "JSRenderer.visitFirst" [];
      Printf "visitMount got here" []]).
Proof. vm_compute. reflexivity. Qed.

(** ** The further properties at work on the sample values *)

Lemma childPositionID_siblings_differ_witness :
  (1 <> 2)%Z /\
  childPositionID p0 1 <> childPositionID p0 2 /\
  childPositionID p0 1 <> p0 /\
  firstn (List.length p0) (childPositionID p0 1) = p0.
Proof.
  assert (Hne : (1 <> 2)%Z) by discriminate.
  split; [exact Hne|].
  exact (childPositionID_siblings_differ p0 1 2 Hne).
Defined.

Lemma Render_position_ids_distinct_witness :
  Doc (sampleBuildOut sampleDiv) = Some sampleDiv /\
  fanoutBounded sampleDiv = true /\
  exists d,
    written (snd (Render (Some (sampleBuildOut sampleDiv)) sampleWorld)) =
    written sampleWorld ++ d /\
    NoDup (positionIDs d) /\
    (fst (Render (Some (sampleBuildOut sampleDiv)) sampleWorld) = None ->
     ToLower (Data sampleDiv) <> "html"%string ->
     positionIDs d =
     positionIDs (elementEtcInstrs sampleDiv (list_byte_of_string "0"))).
Proof.
  assert (Hb : fanoutBounded sampleDiv = true) by (vm_compute; reflexivity).
  split; [reflexivity|]. split; [exact Hb|].
  exact (Render_position_ids_distinct (sampleBuildOut sampleDiv) sampleDiv
           sampleWorld eq_refl Hb).
Defined.

Lemma Render_cursor_stays_below_mount_witness :
  Doc (sampleBuildOut sampleBadChild) = Some sampleBadChild /\
  exists d,
    written (snd (Render (Some (sampleBuildOut sampleBadChild))
                    sampleWorld)) =
    written sampleWorld ++ d /\
    cursorAfter 0 d <> None /\
    (fst (Render (Some (sampleBuildOut sampleBadChild)) sampleWorld) = None ->
     cursorAfter 0 d = Some 0).
Proof.
  split; [reflexivity|].
  exact (Render_cursor_stays_below_mount (sampleBuildOut sampleBadChild)
           sampleBadChild sampleWorld eq_refl).
Defined.

Lemma Render_errors_witness :
  fst (Render (Some (sampleBuildOut sampleBadChild)) sampleWorld) =
  Some (Errorf "unknown node type %v" [ArgNodeType DocumentNode]) /\
  renderError (Errorf "unknown node type %v" [ArgNodeType DocumentNode]) /\
  Errorf "unknown node type %v" [ArgNodeType DocumentNode] <>
  Errorf "root of component must be element" [] /\
  (Errorf "unknown node type %v" [ArgNodeType DocumentNode] =
   Errorf "js environment not available" [] <->
   jsGlobalTruthy sampleWorld = false).
Proof.
  assert (He : fst (Render (Some (sampleBuildOut sampleBadChild))
                      sampleWorld) =
               Some (Errorf "unknown node type %v"
                            [ArgNodeType DocumentNode]))
    by (vm_compute; reflexivity).
  split; [exact He|].
  exact (Render_errors (Some (sampleBuildOut sampleBadChild)) sampleWorld
           _ He).
Defined.

Lemma Render_delivers_on_success_witness :
  Render (Some (sampleBuildOut sampleRaw)) sampleWorld =
  (None, snd (Render (Some (sampleBuildOut sampleRaw)) sampleWorld)) /\
  pending (instructionList_
             (snd (Render (Some (sampleBuildOut sampleRaw)) sampleWorld)))
  = [] /\
  exists b el,
    Some (sampleBuildOut sampleRaw) = Some b /\ Doc b = Some el /\
    List.concat
      (flushed (instructionList_
                  (snd (Render (Some (sampleBuildOut sampleRaw))
                          sampleWorld)))) =
    List.concat (flushed (instructionList_ sampleWorld)) ++
    pending (instructionList_ sampleWorld) ++
    visitFirstInstrs (MountPointSelector sampleWorld) el
      (list_byte_of_string "0").
Proof.
  assert (E : Render (Some (sampleBuildOut sampleRaw)) sampleWorld =
              (None,
               snd (Render (Some (sampleBuildOut sampleRaw)) sampleWorld)))
    by (vm_compute; reflexivity).
  split; [exact E|].
  exact (Render_delivers_on_success (Some (sampleBuildOut sampleRaw))
           sampleWorld _ E).
Defined.

Lemma Render_failure_skips_flush_witness :
  fst (Render (Some (sampleBuildOut sampleBadChild)) sampleWorld) =
  Some (Errorf "unknown node type %v" [ArgNodeType DocumentNode]) /\
  Errorf "unknown node type %v" [ArgNodeType DocumentNode] <>
  BufferOverflow /\
  (exists d,
      written
        (snd (Render (Some (sampleBuildOut sampleBadChild)) sampleWorld)) =
      written sampleWorld ++ d /\
      (flushed
         (instructionList_
            (snd (Render (Some (sampleBuildOut sampleBadChild))
                    sampleWorld))) =
       flushed (instructionList_ sampleWorld) /\
       pending
         (instructionList_
            (snd (Render (Some (sampleBuildOut sampleBadChild))
                    sampleWorld))) =
       pending (instructionList_ sampleWorld) ++ d \/
       exists d1 d2,
         d = d1 ++ d2 /\ d2 <> [] /\
         pending
           (instructionList_
              (snd (Render (Some (sampleBuildOut sampleBadChild))
                      sampleWorld))) = d2)) /\
  pending
    (instructionList_
       (snd (Render (Some (sampleBuildOut sampleBadChild)) sampleWorld))) =
  [ClearElement; SelectMountPoint "#app" "div"; RemoveOtherAttrs;
   RemoveOtherEventListeners p0; MoveToFirstChild;
   SetText "t"; MoveToNextSibling].
Proof.
  assert (He : fst (Render (Some (sampleBuildOut sampleBadChild))
                      sampleWorld) =
               Some (Errorf "unknown node type %v"
                            [ArgNodeType DocumentNode]))
    by (vm_compute; reflexivity).
  assert (Hne : Errorf "unknown node type %v" [ArgNodeType DocumentNode] <>
                BufferOverflow) by discriminate.
  split; [exact He|]. split; [exact Hne|].
  split; [|vm_compute; reflexivity].
  exact (Render_failure_skips_flush (Some (sampleBuildOut sampleBadChild))
           sampleWorld _ He Hne).
Defined.

Lemma Render_html_root_only_clears_witness :
  Doc (sampleBuildOut sampleHtml) = Some sampleHtml /\
  ToLower (Data sampleHtml) = "html"%string /\
  exists d,
    written (snd (Render (Some (sampleBuildOut sampleHtml)) sampleWorld)) =
    written sampleWorld ++ d /\
    (d = [] \/ d = [ClearElement]).
Proof.
  assert (Hhtml : ToLower (Data sampleHtml) = "html"%string)
    by (vm_compute; reflexivity).
  split; [reflexivity|]. split; [exact Hhtml|].
  exact (Render_html_root_only_clears (sampleBuildOut sampleHtml)
           sampleHtml sampleWorld eq_refl Hhtml).
Defined.

Lemma Render_nil_iff_mounted_witness :
  Doc (sampleBuildOut sampleDiv) = Some sampleDiv /\
  ToLower (Data sampleDiv) <> "html"%string /\
  (fst (Render (Some (sampleBuildOut sampleDiv)) sampleWorld) = None <->
   jsGlobalTruthy sampleWorld = true /\
   Type_ sampleDiv = ElementNode /\
   elementKnown typesKnown sampleDiv = true /\
   Forall (fits sampleWorld)
     (ClearElement ::
      SelectMountPoint (MountPointSelector sampleWorld) (Data sampleDiv) ::
      elementEtcInstrs sampleDiv (list_byte_of_string "0"))).
Proof.
  assert (Hdiv : ToLower (Data sampleDiv) <> "html"%string)
    by (vm_compute; discriminate).
  split; [reflexivity|]. split; [exact Hdiv|].
  exact (Render_nil_iff_mounted (sampleBuildOut sampleDiv) sampleDiv
           sampleWorld eq_refl Hdiv).
Defined.

Lemma Render_cleans_every_element_witness :
  Doc (sampleBuildOut sampleDiv) = Some sampleDiv /\
  ToLower (Data sampleDiv) <> "html"%string /\
  Render (Some (sampleBuildOut sampleDiv)) sampleWorld =
  (None, snd (Render (Some (sampleBuildOut sampleDiv)) sampleWorld)) /\
  exists d,
    written (snd (Render (Some (sampleBuildOut sampleDiv)) sampleWorld)) =
    written sampleWorld ++ d /\
    countInstr isRemoveOtherAttrs d = S (countInstr isSetElement d) /\
    countInstr isRemoveOtherEventListeners d =
    S (countInstr isSetElement d).
Proof.
  assert (Hdiv : ToLower (Data sampleDiv) <> "html"%string)
    by (vm_compute; discriminate).
  assert (E : Render (Some (sampleBuildOut sampleDiv)) sampleWorld =
              (None,
               snd (Render (Some (sampleBuildOut sampleDiv)) sampleWorld)))
    by (vm_compute; reflexivity).
  split; [reflexivity|]. split; [exact Hdiv|]. split; [exact E|].
  exact (Render_cleans_every_element (sampleBuildOut sampleDiv) sampleDiv
           sampleWorld _ eq_refl Hdiv E).
Defined.

Lemma Render_nil_iff_html_witness :
  Doc (sampleBuildOut sampleHtmlBad) = Some sampleHtmlBad /\
  ToLower (Data sampleHtmlBad) = "html"%string /\
  (fst (Render (Some (sampleBuildOut sampleHtmlBad)) sampleWorld) = None <->
   jsGlobalTruthy sampleWorld = true /\
   Type_ sampleHtmlBad = ElementNode /\
   fits sampleWorld ClearElement /\
   Forall (fun c => isHead c || isBody c = true) (children sampleHtmlBad)).
Proof.
  assert (Hhtml : ToLower (Data sampleHtmlBad) = "html"%string)
    by (vm_compute; reflexivity).
  split; [reflexivity|]. split; [exact Hhtml|].
  exact (Render_nil_iff_html (sampleBuildOut sampleHtmlBad) sampleHtmlBad
           sampleWorld eq_refl Hhtml).
Defined.
